(** * Empirical Bayes smoothing of points-per-attempt over a court grid

    A shallow embedding of [code/empirical_bayes.py]: the per-cell statistics
    built by [prepare_data_for_eb], and the analysis of [do_eb] (distance to
    the basket, neighbourhood selection, variance component, shrinkage weight,
    smoothed rate, assembly of the output table).

    Conventions of the embedding:
    - a pandas frame is a list of rows paired with their index label;
    - integer columns ([attempts], [points], [action], [made]) are [Z];
    - float columns are real numbers ([R]); rounding is not modelled;
    - a [raise] is the [Raise] constructor of [result];
    - a missing value (NaN) left by a left merge is [None];
    - [print] calls do not influence any value and are left out. *)

From Stdlib Require Import Reals Lra Lia ZArith List Bool String.
Import ListNotations.

Open Scope R_scope.

(** ** Results of code that may raise *)

Inductive exception : Type :=
| ValueError (msg : string).

Inductive result (A : Type) : Type :=
| Ok (a : A)
| Raise (e : exception).

Arguments Ok {A} a.
Arguments Raise {A} e.

(** ** Frames and column reductions *)

Definition frame (A : Type) : Type := list (nat * A).

(** Rows of a freshly read frame are labelled 0, 1, 2, ... *)
Fixpoint enumerate_from {A : Type} (i : nat) (l : list A) : frame A :=
  match l with
  | [] => []
  | a :: l' => (i, a) :: enumerate_from (S i) l'
  end.

Definition enumerate {A : Type} (l : list A) : frame A := enumerate_from 0 l.

(** The row carrying a given label, when there is one. *)
Fixpoint loc {A : Type} (idx : nat) (f : frame A) : option A :=
  match f with
  | [] => None
  | (i, a) :: f' => if Nat.eqb i idx then Some a else loc idx f'
  end.

Definition sumZ (l : list Z) : Z := fold_right Z.add 0%Z l.
Definition sumR (l : list R) : R := fold_right Rplus 0 l.

(** Comparisons of floats used as booleans. *)
Definition Rltb (a b : R) : bool := if Rlt_dec a b then true else false.
Definition Rleb (a b : R) : bool := if Rle_dec a b then true else false.
Definition Rneqb (a b : R) : bool := if Req_dec_T a b then false else true.

(** ** Data model *)

(** A row of the shots CSV: [action] is the value of the shot in points (the
    collector writes 2 or 3), [made] is 0 or 1; both are integer columns, so
    [points] needs no truncation by [astype(int)].

    The embedding of [prepare_data_for_eb] covers the CSV files the collector
    writes: [action] an integer in every row, none blank, with sums in the
    range of the integer type. A CSV with a fractional or blank [action] also
    passes the validation of lines 100-104; on such a file the stored [PPA] is
    no longer [points / attempts] (see cell Q below) and blank rows are left
    out of [attempts]. That case is outside this embedding. *)
Record Shot : Type := {
  action : Z;
  made : Z
}.

(** A row of the grid shapefile with its bounds. *)
Record Grid : Type := {
  left : R;
  right : R;
  bottom : R;
  top : R
}.

(** A row of the frame returned by [prepare_data_for_eb]. *)
Record Prepared : Type := {
  grid :> Grid;
  attempts : Z;
  points : Z;
  PPA : R
}.

(** A row of [grid_data] once [do_eb] has added the centre of the cell and its
    distance to the basket. *)
Record Row : Type := {
  prepared :> Prepared;
  x : R;
  y : R;
  dist_to_basket : R
}.

(** A row of the frame returned by [do_eb]. *)
Record EBRow : Type := {
  row :> Row;
  CellVar : option R;
  ShrinkWt : option R;
  EB_PPA : option R
}.

(** ** prepare_data_for_eb *)

(** [np.where(attempts > 0, points / attempts, 0)] *)
Definition points_per_attempt (points attempts : Z) : R :=
  if (attempts >? 0)%Z then IZR points / IZR attempts else 0.

(** The spatial join is taken as given: [shots_with_grid] pairs every shot
    with the label of the grid cell it lies within ([index_right]), or with
    [None] when it lies in no cell. *)
Definition assigned_to (i : nat) (s : Shot * option nat) : bool :=
  match snd s with
  | Some j => Nat.eqb j i
  | None => false
  end.

Definition is_assigned (s : Shot * option nat) : bool :=
  match snd s with
  | Some _ => true
  | None => false
  end.

(** The group of one cell in [groupby('index_right')]. *)
Definition shots_of (i : nat) (shots_with_grid : list (Shot * option nat)) : list Shot :=
  map fst (filter (assigned_to i) shots_with_grid).

(** One row of the left merge of the grid with [grid_stats]; a cell without
    a group gets NaN in the three columns, which [fillna(0)] turns into 0.
    Rows are labelled here by the position of their cell in the grid; pandas
    leaves other labels on the merged frame, distinct among the cells with
    shots, which is all the merge on the index in [do_eb] relies on. *)
Definition grid_stats_row (shots_with_grid : list (Shot * option nat)) (ig : nat * Grid)
  : nat * Prepared :=
  let (i, g) := ig in
  match shots_of i shots_with_grid with
  | [] => (i, {| grid := g; attempts := 0; points := 0; PPA := 0 |})
  | s :: ss =>
      let pts := sumZ (map (fun s => action s * made s)%Z (s :: ss)) in
      let att := Z.of_nat (List.length (s :: ss)) in
      (i, {| grid := g; attempts := att; points := pts;
             PPA := points_per_attempt pts att |})
  end.

(** [shots_df['made'].isin([0, 1])] on one row. *)
Definition made_is_0_or_1 (s : Shot * option nat) : bool :=
  (made (fst s) =? 0)%Z || (made (fst s) =? 1)%Z.

(** [shots_df['action'].min() <= 0] holds when some row has [action <= 0]. *)
Definition action_not_positive (s : Shot * option nat) : bool :=
  (action (fst s) <=? 0)%Z.

Definition prepare_data_for_eb
    (shots_with_grid : list (Shot * option nat)) (grid_gdf : list Grid)
  : result (frame Prepared) :=
  match shots_with_grid with
  | [] => Raise (ValueError "CSV file is empty.")
  | _ :: _ =>
    if negb (forallb made_is_0_or_1 shots_with_grid)
    then Raise (ValueError "Column 'made' must contain only 0 or 1 values.")
    else if existsb action_not_positive shots_with_grid
    then Raise (ValueError "Column 'action' must contain positive values.")
    else match grid_gdf with
    | [] => Raise (ValueError "Grid shapefile is empty.")
    | _ :: _ =>
      if negb (existsb is_assigned shots_with_grid)
      then Raise (ValueError
        "No shots were assigned to any grid cell. Check coordinate system compatibility.")
      else Ok (map (grid_stats_row shots_with_grid) (enumerate grid_gdf))
    end
  end.

(** ** do_eb *)

(** Centre of the cell and distance to the basket (lines 181-187). *)
Definition annotate (basket_coords : R * R) (p : Prepared) : Row :=
  let cx := (left p + right p) / 2 in
  let cy := (bottom p + top p) / 2 in
  {| prepared := p; x := cx; y := cy;
     dist_to_basket :=
       sqrt ((cx - fst basket_coords) ^ 2 + (cy - snd basket_coords) ^ 2) |}.

(** The two radii of [get_neighborhood_params]. *)
Definition equidistant_range (d : R) : R :=
  if Rlt_dec d 9.144 then 0.3658
  else let extra_feet := d - 9.144 in 0.3658 + (0.1524 * extra_feet).

Definition close_range (d : R) : R :=
  if Rlt_dec d 9.144 then 1.524
  else let extra_feet := d - 9.144 in 1.524 + (0.3048 * extra_feet).

(** [distance.cdist] of two points: the Euclidean distance. *)
Definition cdist (p q : R * R) : R :=
  sqrt ((fst p - fst q) ^ 2 + (snd p - snd q) ^ 2).

Definition in_neighborhood (row g : Row) : bool :=
  let d := dist_to_basket row in
  Rleb (Rabs (dist_to_basket g - d)) (equidistant_range d)
  && Rleb (cdist (x row, y row) (x g, y g)) (close_range d)
  && (attempts g >? 0)%Z.

Definition get_neighborhood_params (row : Row) (gdf : frame Row) : frame Row :=
  filter (fun ig => in_neighborhood row (snd ig)) gdf.

(** Columns of a neighbourhood. *)
Definition col {A B : Type} (f : A -> B) (fr : frame A) : list B :=
  map (fun ia => f (snd ia)) fr.

(** [total_makes / total_shots if total_shots > 0 else 0] *)
Definition gamma_of (neighborhood : frame Row) : R :=
  let total_shots := sumZ (col (fun g : Row => attempts g) neighborhood) in
  let total_makes := sumZ (col (fun g : Row => points g) neighborhood) in
  if (total_shots >? 0)%Z then IZR total_makes / IZR total_shots else 0.

(** [neighborhood['attempts'].mean()] *)
Definition n_bar_of (neighborhood : frame Row) : R :=
  IZR (sumZ (col (fun g : Row => attempts g) neighborhood))
  / INR (List.length neighborhood).

(** [points / attempts] of one neighbour, infinities and NaN replaced by 0. *)
Definition gamma_j (g : Row) : R :=
  if (attempts g =? 0)%Z then 0 else IZR (points g) / IZR (attempts g).

(** [np.sum(n_j * (r_j - gamma_j) ** 2)] *)
Definition numerator_of (neighborhood : frame Row) : R :=
  sumR (col (fun g : Row => IZR (attempts g) * (PPA g - gamma_j g) ^ 2) neighborhood).

Definition denominator_of (neighborhood : frame Row) : Z :=
  sumZ (col (fun g : Row => attempts g) neighborhood).

(** Variance component of a non-empty neighbourhood (lines 260-264). *)
Definition phi_of (neighborhood : frame Row) : R :=
  let gamma_i := gamma_of neighborhood in
  let n_bar_j := n_bar_of neighborhood in
  let numerator := numerator_of neighborhood in
  let denominator := denominator_of neighborhood in
  if (denominator >? 0)%Z && Rltb 0 n_bar_j
  then Rmax 0 (numerator / IZR denominator - gamma_i / n_bar_j)
  else 0.

(** The unclamped ratio of line 272. *)
Definition w_raw (phi_i gamma_i : R) (n_i : Z) : R :=
  phi_i / (phi_i + gamma_i / IZR n_i).

(** Shrinkage weight (lines 270-275). *)
Definition w_hat_of (phi_i gamma_i : R) (n_i : Z) : R :=
  if (n_i >? 0)%Z && Rneqb (phi_i + gamma_i / IZR n_i) 0
  then Rmax 0 (Rmin 1 (w_raw phi_i gamma_i n_i))
  else 0.

(** Smoothed rate (line 282). *)
Definition theta_of (w_hat_i r_i gamma_i : R) : R :=
  w_hat_i * r_i + (1 - w_hat_i) * gamma_i.

(** The estimator on a neighbourhood: [(phi_i, w_hat_i, theta_i)]. *)
Definition estimate (row : Row) (neighborhood : frame Row) : R * R * R :=
  match neighborhood with
  | [] => (0, 0, PPA row)
  | _ :: _ =>
      let gamma_i := gamma_of neighborhood in
      let phi_i := phi_of neighborhood in
      let w_hat_i := w_hat_of phi_i gamma_i (attempts row) in
      let theta_i := theta_of w_hat_i (PPA row) gamma_i in
      (phi_i, w_hat_i, theta_i)
  end.

(** One turn of the loop over [active_grids] (lines 229-283). *)
Definition eb_params (row : Row) (active_grids : frame Row) : R * R * R :=
  estimate row (get_neighborhood_params row active_grids).

(** The three new columns of [active_grids], by label. *)
Definition eb_columns (active_grids : frame Row) : frame (R * R * R) :=
  map (fun ir => (fst ir, eb_params (snd ir) active_grids)) active_grids.

(** [merged.where(attempts > 0, 0)] on one value of a merged column. *)
Definition where_attempts (r : Row) (merged : option R) : option R :=
  if (attempts r >? 0)%Z then merged else Some 0.

(** Left merge on the index followed by the three [where] (lines 295-305). *)
Definition merge_row (columns : frame (R * R * R)) (ir : nat * Row) : nat * EBRow :=
  let (idx, r) := ir in
  let m := loc idx columns in
  (idx, {| row := r;
           CellVar := where_attempts r (option_map (fun t => fst (fst t)) m);
           ShrinkWt := where_attempts r (option_map (fun t => snd (fst t)) m);
           EB_PPA := where_attempts r (option_map snd m) |}).

(** [grid_data] with its three added columns (lines 181-187). *)
Definition grid_data_of (prepared_gdf : frame Prepared) (basket_coords : R * R)
  : frame Row :=
  map (fun ip => (fst ip, annotate basket_coords (snd ip))) prepared_gdf.

(** [grid_data[grid_data['attempts'] > 0]] *)
Definition active_of (grid_data : frame Row) : frame Row :=
  filter (fun ir : nat * Row => (attempts (snd ir) >? 0)%Z) grid_data.

(** The frame [do_eb] returns when it does not raise. *)
Definition eb_output (grid_data : frame Row) : frame EBRow :=
  map (merge_row (eb_columns (active_of grid_data))) grid_data.

(** [do_eb] from the prepared frame on (lines 181-324, the file output apart). *)
Definition eb_analysis (prepared_gdf : frame Prepared) (basket_coords : R * R)
  : result (frame EBRow) :=
  let grid_data := grid_data_of prepared_gdf basket_coords in
  match active_of grid_data with
  | [] => Raise (ValueError "No grids with attempts for analysis.")
  | _ :: _ => Ok (eb_output grid_data)
  end.

Definition do_eb (shots_with_grid : list (Shot * option nat)) (grid_gdf : list Grid)
    (basket_coords : R * R) : result (frame EBRow) :=
  match prepare_data_for_eb shots_with_grid grid_gdf with
  | Raise e => Raise e
  | Ok prepared_gdf => eb_analysis prepared_gdf basket_coords
  end.

(** ** What [prepare_data_for_eb] guarantees of a row

    [PPA] is the quotient of the row's own [points] and [attempts], and both
    counts are non-negative. *)

Definition rate_consistent (p : Prepared) : Prop :=
  PPA p = points_per_attempt (points p) (attempts p).

Definition well_prepared (p : Prepared) : Prop :=
  (0 <= attempts p)%Z /\ (0 <= points p)%Z /\ rate_consistent p.

(** The result of the normal path of the estimator, as a triple. *)
Definition normal_path (c : Row) (neighborhood : frame Row) : R * R * R :=
  let gamma_i := gamma_of neighborhood in
  let phi_i := phi_of neighborhood in
  let w_hat_i := w_hat_of phi_i gamma_i (attempts c) in
  (phi_i, w_hat_i, theta_of w_hat_i (PPA c) gamma_i).

(** ** Cells used as concrete inputs

    Cells A, B and C of a three-cell court with the basket at the origin:
    A and B are close to each other and to the basket, C is a far outlier;
    cell Z has no attempt. *)

Definition prepA : Prepared :=
  {| grid := {| left := -0.5; right := 0.5; bottom := 0.5; top := 1.5 |};
     attempts := 10; points := 15; PPA := 15 / 10 |}.

Definition prepB : Prepared :=
  {| grid := {| left := -0.5; right := 0.5; bottom := 0.7; top := 1.7 |};
     attempts := 8; points := 10; PPA := 10 / 8 |}.

Definition prepC : Prepared :=
  {| grid := {| left := 29.5; right := 30.5; bottom := 39.5; top := 40.5 |};
     attempts := 5; points := 5; PPA := 5 / 5 |}.

Definition prepZ : Prepared :=
  {| grid := {| left := 0.5; right := 1.5; bottom := 0.5; top := 1.5 |};
     attempts := 0; points := 0; PPA := 0 |}.

Definition cellA : Row :=
  {| prepared := prepA; x := 0; y := 1; dist_to_basket := 1 |}.

Definition cellB : Row :=
  {| prepared := prepB; x := 0; y := 1.2; dist_to_basket := 1.2 |}.

Definition cellC : Row :=
  {| prepared := prepC; x := 30; y := 40; dist_to_basket := 50 |}.

Definition cellZ : Row :=
  {| prepared := prepZ; x := 1; y := 1; dist_to_basket := sqrt 2 |}.

Definition preparedABCZ : frame Prepared :=
  [(0%nat, prepA); (1%nat, prepB); (2%nat, prepC); (3%nat, prepZ)].

(** The output row of the cell without attempts in the four-cell table. *)
Definition outZ : EBRow :=
  snd (merge_row (eb_columns (active_of (grid_data_of preparedABCZ (0, 0))))
                 (3%nat, annotate (0, 0) prepZ)).

(** A shot that lies in no cell of a one-cell grid. *)
Definition stray_shot : Shot * option nat := ({| action := 2; made := 1 |}, None).

Definition tableAB : frame Row :=
  [(0%nat, cellA); (1%nat, cellB)].

Definition tableABC : frame Row :=
  [(0%nat, cellA); (1%nat, cellB); (2%nat, cellC)].

Definition tableABCZ : frame Row :=
  [(0%nat, cellA); (1%nat, cellB); (2%nat, cellC); (3%nat, cellZ)].

(** ** Diagnostics of [do_eb]

    The two conditions under which [do_eb] prints a warning. *)

(** [grid_data[grid_data['points'] > grid_data['attempts'] * 3]] (line 193). *)
Definition invalid_grids (grid_data : frame Row) : frame Row :=
  filter (fun ir : nat * Row => (points (snd ir) >? attempts (snd ir) * 3)%Z) grid_data.

(** [theta_i > 3 or theta_i < 0] (line 285). *)
Definition out_of_range (theta_i : R) : bool :=
  Rltb 3 theta_i || Rltb theta_i 0.

(** ** shooting_data_collection.py: court coordinates

    [coords] turns the percentages of the live-stats feed into metres on a
    half court, flipping the shots taken beyond the half-court line. *)
Definition coords (x y : R) : R * R :=
  let minX := -7.5 in
  let maxX := 7.5 in
  let minY := -14.0 in
  let maxY := 14.0 in
  let coord_x := x / 100 in
  let coord_y := y / 100 in
  let rot_x := - (coord_y - 0.5) in
  let rot_y := coord_x - 0.5 in
  let final_x := minX + (rot_x + 0.5) * (maxX - minX) in
  let final_y := minY + (rot_y + 0.5) * (maxY - minY) in
  if Rlt_dec final_y 0 then (- final_x, - final_y) else (final_x, final_y).

(** ** local_metrics.py: metrics of one player per grid cell

    The script reads the grid layer written by [do_eb] (columns [distance]
    and [EB_PPA]) and the shots of one player; as in [prepare_data_for_eb] the
    spatial join is taken as given, every shot paired with the label of the
    cell that contains it, and the shots file has the columns [action] and
    [made]. The columns [distance] and [EB_PPA] are selected when the layer is
    read, so the branches for a missing column are dead and left out. *)

Module LocalMetrics.

Record Layer : Type := {
  distance : R;
  EB_PPA : R
}.

Record Local : Type := {
  layer :> Layer;
  FGA : Z;
  PPB : Z;
  ELPTS : R;
  PTS : Z;
  LPRLA : R;
  LPPA : option R;
  LSScE : option R
}.

(** The rows one cell of the layer contributes: none when it contains no
    shot (inner join), else one row with the columns of lines 102-141. *)
Definition local_row (points_gdf : list (Shot * option nat)) (ic : nat * Layer)
  : frame Local :=
  let (i, c) := ic in
  match shots_of i points_gdf with
  | [] => []
  | s :: ss =>
      let fga := Z.of_nat (List.length (s :: ss)) in
      let ppb := if Rlt_dec 6.62 (distance c) then 3%Z else 2%Z in
      let elpts := EB_PPA c * IZR fga in
      let pts := sumZ (map (fun s => action s * made s)%Z (s :: ss)) in
      let lppa := if (fga =? 0)%Z then None else Some (IZR pts / IZR fga) in
      [(i, {| layer := c; FGA := fga; PPB := ppb; ELPTS := elpts; PTS := pts;
              LPRLA := IZR pts - elpts;
              LPPA := lppa;
              LSScE := option_map (fun l => l - EB_PPA c) lppa |})]
  end.

Definition local_metrics (points_gdf : list (Shot * option nat)) (grid_gdf : list Layer)
  : frame Local :=
  flat_map (local_row points_gdf) (enumerate grid_gdf).

End LocalMetrics.

(** ** global_metrics.py: metrics of one player over the whole court

    The script reads the CSV written by local_metrics.py, whose columns 3, 4
    and 6 are [FGA], [PPB] and [PTS]; the text clean-up of the numeric columns
    (lines 72-75) gives the numbers back unchanged and is left out. *)

Module GlobalMetrics.

Import LocalMetrics.

Record Metrics : Type := {
  EPPA : R;
  PPA : R;
  SScE : R;
  PRLA : R;
  FG_pct : R;
  two_pt_pct : R;
  three_pt_pct : R;
  efg_pct : R;
  FGA_sum : Z
}.

(** The loop of [calculate_efg_pct] with its two accumulators. *)
Fixpoint efg_loop (df : list Local) (temp_calc ppb_3_sum : R) : R * R :=
  match df with
  | [] => (temp_calc, ppb_3_sum)
  | row :: df' =>
      if (PPB row =? 3)%Z then
        let value := IZR (PTS row) / 3 in
        efg_loop df' (temp_calc + value) (ppb_3_sum + value)
      else if (PPB row =? 2)%Z then
        efg_loop df' (temp_calc + IZR (PTS row) / 2) ppb_3_sum
      else efg_loop df' temp_calc ppb_3_sum
  end.

Definition calculate_efg_pct (df : list Local) : R :=
  let (temp_calc, ppb_3_sum) := efg_loop df 0.0 0.0 in
  let fga_total := sumZ (map FGA df) in
  if (fga_total =? 0)%Z then 0
  else ((temp_calc + ppb_3_sum * 0.5) / IZR fga_total) * 100.

Definition is_two (row : Local) : bool := (PPB row =? 2)%Z.
Definition is_three (row : Local) : bool := (PPB row =? 3)%Z.
Definition scored (row : Local) : bool := (PTS row >? 0)%Z.

(** Lines 79-134. *)
Definition global_metrics (df : list Local) : Metrics :=
  let sum_elpts := sumR (map ELPTS df) in
  let sum_pts_sum := sumZ (map PTS df) in
  let sum_fga := sumZ (map FGA df) in
  let made_shots := sumR (map (fun row => IZR (PTS row) / IZR (PPB row)) df) in
  let two_pt_made :=
    IZR (sumZ (map PTS (filter (fun row => is_two row && scored row) df))) / 2 in
  let two_pt_fga := sumZ (map FGA (filter is_two df)) in
  let two_pt_pct :=
    if (two_pt_fga >? 0)%Z then two_pt_made / IZR two_pt_fga * 100 else 0 in
  let three_pt_made :=
    Z.of_nat (List.length (filter (fun row => is_three row && scored row) df)) in
  let three_pt_fga := sumZ (map FGA (filter is_three df)) in
  let three_pt_pct :=
    if (three_pt_fga >? 0)%Z then IZR three_pt_made / IZR three_pt_fga * 100 else 0 in
  let fga_sum := sumZ (map FGA df) in
  let efg_pct := calculate_efg_pct df in
  let eppa := if (sum_fga =? 0)%Z then 0 else sum_elpts / IZR sum_fga in
  let ppa := if (sum_fga =? 0)%Z then 0 else IZR sum_pts_sum / IZR sum_fga in
  let ssce := ppa - eppa in
  let prla := ssce * IZR sum_fga in
  let FG_pct :=
    if (sum_fga >? 0)%Z then (made_shots / IZR sum_fga) * 100 else 0 in
  {| EPPA := eppa; PPA := ppa; SScE := ssce; PRLA := prla; FG_pct := FG_pct;
     two_pt_pct := two_pt_pct; three_pt_pct := three_pt_pct; efg_pct := efg_pct;
     FGA_sum := fga_sum |}.

End GlobalMetrics.

(** ** Further concrete inputs *)

(** Two attempted cells on the axis through the basket, on either side of the
    9.144 threshold. *)
Definition cellN : Row :=
  {| prepared := {| grid := {| left := -0.5; right := 0.5; bottom := 8.6; top := 9.6 |};
                    attempts := 4; points := 6; PPA := 6 / 4 |};
     x := 0; y := 9.1; dist_to_basket := 9.1 |}.

Definition cellF : Row :=
  {| prepared := {| grid := {| left := -0.5; right := 0.5; bottom := 9; top := 10 |};
                    attempts := 3; points := 3; PPA := 3 / 3 |};
     x := 0; y := 9.5; dist_to_basket := 9.5 |}.

(** Three shots on a grid of two cells: two fall in cell 0, one in no cell. *)
Definition gridA : Grid := {| left := -0.5; right := 0.5; bottom := 0.5; top := 1.5 |}.
Definition gridZ : Grid := {| left := 0.5; right := 1.5; bottom := 0.5; top := 1.5 |}.

Definition shots3 : list (Shot * option nat) :=
  [ ({| action := 2; made := 1 |}, Some 0%nat);
    ({| action := 3; made := 0 |}, Some 0%nat);
    ({| action := 3; made := 1 |}, None) ].

Definition grid2 : list Grid := [gridA; gridZ].

(** A layer of two cells, inside and outside the three-point line. *)
Definition layer2 : list LocalMetrics.Layer :=
  [ {| LocalMetrics.distance := 1; LocalMetrics.EB_PPA := 1.2 |};
    {| LocalMetrics.distance := 7; LocalMetrics.EB_PPA := 0.9 |} ].

(** The row of local_metrics.py for cell 1 of this layer and the shots below. *)
Definition local4_row1 : LocalMetrics.Local :=
  {| LocalMetrics.layer := {| LocalMetrics.distance := 7; LocalMetrics.EB_PPA := 0.9 |};
     LocalMetrics.FGA := 1; LocalMetrics.PPB := 3;
     LocalMetrics.ELPTS := 0.9 * 1; LocalMetrics.PTS := 3;
     LocalMetrics.LPRLA := 3 - 0.9 * 1;
     LocalMetrics.LPPA := Some (3 / 1);
     LocalMetrics.LSScE := Some (3 / 1 - 0.9) |}.

Definition local4_row0 : LocalMetrics.Local :=
  {| LocalMetrics.layer := {| LocalMetrics.distance := 1; LocalMetrics.EB_PPA := 1.2 |};
     LocalMetrics.FGA := 2; LocalMetrics.PPB := 2;
     LocalMetrics.ELPTS := 1.2 * 2; LocalMetrics.PTS := 2;
     LocalMetrics.LPRLA := 2 - 1.2 * 2;
     LocalMetrics.LPPA := Some (2 / 2);
     LocalMetrics.LSScE := Some (2 / 2 - 1.2) |}.

(** The frame global_metrics.py reads for these two rows. *)
Definition df4 : list LocalMetrics.Local := [local4_row0; local4_row1].

(** Four shots of a player: two in cell 0, one in cell 1, one in no cell. *)
Definition shots4 : list (Shot * option nat) :=
  [ ({| action := 2; made := 1 |}, Some 0%nat);
    ({| action := 2; made := 0 |}, Some 0%nat);
    ({| action := 3; made := 1 |}, Some 1%nat);
    ({| action := 3; made := 1 |}, None) ].

(** What [do_eb] returns for these shots with the basket at the origin. *)
Definition out3 : frame EBRow :=
  eb_output (grid_data_of (map (grid_stats_row shots3) (enumerate grid2)) (0, 0)).

Definition out3_row0 : EBRow :=
  snd (merge_row
         (eb_columns (active_of
            (grid_data_of (map (grid_stats_row shots3) (enumerate grid2)) (0, 0))))
         (0%nat, annotate (0, 0) (snd (grid_stats_row shots3 (0%nat, gridA))))).

(** A cell whose stored raw rate is not the quotient of its stored points
    and attempts: what [prepare_data_for_eb] returns for a single shot with
    [action] 0.9 and [made] 1, where [PPA] is computed (line 155) before
    [astype(int)] truncates [points] to 0 (line 162). *)
Definition cellQ : Row :=
  {| prepared := {| grid := {| left := -0.5; right := 0.5; bottom := 0.5; top := 1.5 |};
                    attempts := 1; points := 0; PPA := 0.9 |};
     x := 0; y := 1; dist_to_basket := 1 |}.

Definition tableQ : frame Row := [(0%nat, cellQ)].

(** The output row of cell A in the four-cell table. *)
Definition outA : EBRow :=
  snd (merge_row (eb_columns (active_of (grid_data_of preparedABCZ (0, 0))))
                 (0%nat, annotate (0, 0) prepA)).

(** * Properties *)

(** ** Comparisons *)

Lemma Rleb_true (a b : R) : Rleb a b = true <-> a <= b.
Proof. unfold Rleb. destruct (Rle_dec a b); split; intros; try easy; lra. Qed.

Lemma Rleb_false (a b : R) : Rleb a b = false <-> b < a.
Proof. unfold Rleb. destruct (Rle_dec a b); split; intros; try easy; lra. Qed.

Lemma Rltb_true (a b : R) : Rltb a b = true <-> a < b.
Proof. unfold Rltb. destruct (Rlt_dec a b); split; intros; try easy; lra. Qed.

Lemma Rneqb_true (a b : R) : Rneqb a b = true <-> a <> b.
Proof. unfold Rneqb. destruct (Req_dec_T a b); split; intros; easy. Qed.

Lemma Rneqb_false (a b : R) : Rneqb a b = false <-> a = b.
Proof. unfold Rneqb. destruct (Req_dec_T a b); split; intros; easy. Qed.

(** ** The radii *)

Lemma equidistant_range_near (d : R) : d < 9.144 -> equidistant_range d = 0.3658.
Proof. intros H. unfold equidistant_range. destruct (Rlt_dec d 9.144); [reflexivity | lra]. Qed.

Lemma equidistant_range_far (d : R) :
  9.144 <= d -> equidistant_range d = 0.3658 + 0.1524 * (d - 9.144).
Proof. intros H. unfold equidistant_range. destruct (Rlt_dec d 9.144); [lra | reflexivity]. Qed.

Lemma close_range_near (d : R) : d < 9.144 -> close_range d = 1.524.
Proof. intros H. unfold close_range. destruct (Rlt_dec d 9.144); [reflexivity | lra]. Qed.

Lemma close_range_far (d : R) :
  9.144 <= d -> close_range d = 1.524 + 0.3048 * (d - 9.144).
Proof. intros H. unfold close_range. destruct (Rlt_dec d 9.144); [lra | reflexivity]. Qed.

Lemma equidistant_range_lower (d : R) : 0.3658 <= equidistant_range d.
Proof.
  destruct (Rlt_dec d 9.144) as [H | H].
  - rewrite equidistant_range_near by assumption. lra.
  - rewrite equidistant_range_far by lra. lra.
Qed.

Lemma close_range_lower (d : R) : 1.524 <= close_range d.
Proof.
  destruct (Rlt_dec d 9.144) as [H | H].
  - rewrite close_range_near by assumption. lra.
  - rewrite close_range_far by lra. lra.
Qed.

(** C10: a cell nearer than 9.144 gets the two base radii 0.3658 and 1.524; a
    cell farther than 9.144 gets radii that are strictly greater than those,
    each base radius plus its slope (0.1524, 0.3048) times the distance beyond
    9.144. *)
Theorem radii_grow_beyond_threshold (c1 c2 : Row) :
  dist_to_basket c1 < 9.144 -> 9.144 < dist_to_basket c2 ->
  equidistant_range (dist_to_basket c1) = 0.3658 /\
  close_range (dist_to_basket c1) = 1.524 /\
  equidistant_range (dist_to_basket c2) = 0.3658 + 0.1524 * (dist_to_basket c2 - 9.144) /\
  close_range (dist_to_basket c2) = 1.524 + 0.3048 * (dist_to_basket c2 - 9.144) /\
  equidistant_range (dist_to_basket c1) < equidistant_range (dist_to_basket c2) /\
  close_range (dist_to_basket c1) < close_range (dist_to_basket c2).
Proof.
  intros H1 H2.
  rewrite (equidistant_range_near _ H1), (close_range_near _ H1).
  rewrite equidistant_range_far, close_range_far by lra.
  repeat split; lra.
Qed.

Lemma radii_grow_beyond_threshold_witness :
  dist_to_basket cellA < 9.144 /\ 9.144 < dist_to_basket cellC /\
  equidistant_range (dist_to_basket cellA) < equidistant_range (dist_to_basket cellC) /\
  close_range (dist_to_basket cellA) < close_range (dist_to_basket cellC).
Proof.
  assert (H1 : dist_to_basket cellA < 9.144) by (simpl; lra).
  assert (H2 : 9.144 < dist_to_basket cellC) by (simpl; lra).
  split; [exact H1 | split; [exact H2 |]].
  apply (radii_grow_beyond_threshold cellA cellC H1 H2).
Defined.

(** ** The distance to the basket and the neighbourhood *)

Lemma sqrt_le_of_sq (z c : R) : 0 <= c -> z <= c * c -> sqrt z <= c.
Proof.
  intros Hc Hz. destruct (Rle_dec 0 z) as [H0 | H0].
  - rewrite <- (sqrt_square c Hc). apply sqrt_le_1; nra.
  - rewrite sqrt_neg_0 by lra. exact Hc.
Qed.

Lemma sqrt_eq_of_sq (z c : R) : 0 <= c -> z = c * c -> sqrt z = c.
Proof. intros Hc ->. apply sqrt_square, Hc. Qed.

Lemma cdist_self (p : R * R) : cdist p p = 0.
Proof.
  unfold cdist.
  replace ((fst p - fst p) ^ 2 + (snd p - snd p) ^ 2) with 0 by ring.
  apply sqrt_0.
Qed.

Lemma cdist_nonneg (p q : R * R) : 0 <= cdist p q.
Proof. apply sqrt_pos. Qed.

Lemma annotate_dist_nonneg (basket_coords : R * R) (p : Prepared) :
  0 <= dist_to_basket (annotate basket_coords p).
Proof. apply sqrt_pos. Qed.

(** The example cells are what [annotate] makes of their prepared rows for a
    basket at the origin. *)
Example annotate_cellA : annotate (0, 0) prepA = cellA.
Proof.
  unfold annotate, cellA; simpl. f_equal; try lra.
  apply sqrt_eq_of_sq; lra.
Qed.

Example annotate_cellB : annotate (0, 0) prepB = cellB.
Proof.
  unfold annotate, cellB; simpl. f_equal; try lra.
  apply sqrt_eq_of_sq; lra.
Qed.

Example annotate_cellC : annotate (0, 0) prepC = cellC.
Proof.
  unfold annotate, cellC; simpl. f_equal; try lra.
  apply sqrt_eq_of_sq; lra.
Qed.

Example annotate_cellZ : annotate (0, 0) prepZ = cellZ.
Proof.
  unfold annotate, cellZ; simpl. f_equal; try lra.
  f_equal. lra.
Qed.

Example grid_data_of_ABCZ : grid_data_of preparedABCZ (0, 0) = tableABCZ.
Proof.
  unfold grid_data_of, preparedABCZ, tableABCZ; simpl.
  now rewrite annotate_cellA, annotate_cellB, annotate_cellC, annotate_cellZ.
Qed.

Example active_of_ABCZ : active_of tableABCZ = tableABC.
Proof. reflexivity. Qed.

Lemma in_neighborhood_spec (c n : Row) :
  in_neighborhood c n = true <->
  Rabs (dist_to_basket n - dist_to_basket c) <= equidistant_range (dist_to_basket c) /\
  cdist (x c, y c) (x n, y n) <= close_range (dist_to_basket c) /\
  (0 < attempts n)%Z.
Proof.
  unfold in_neighborhood.
  rewrite !andb_true_iff, !Rleb_true, Z.gtb_lt. tauto.
Qed.

Lemma in_neighborhood_self (c : Row) :
  (0 < attempts c)%Z -> in_neighborhood c c = true.
Proof.
  intros Hc. apply in_neighborhood_spec. repeat split.
  - replace (dist_to_basket c - dist_to_basket c) with 0 by ring.
    rewrite Rabs_R0. pose proof (equidistant_range_lower (dist_to_basket c)). lra.
  - rewrite cdist_self. pose proof (close_range_lower (dist_to_basket c)). lra.
  - exact Hc.
Qed.

Lemma get_neighborhood_params_In (c : Row) (gdf : frame Row) (idx : nat) (n : Row) :
  In (idx, n) (get_neighborhood_params c gdf) <->
  In (idx, n) gdf /\ in_neighborhood c n = true.
Proof. unfold get_neighborhood_params. now rewrite filter_In. Qed.

Lemma self_in_neighborhood (c : Row) (gdf : frame Row) (idx : nat) :
  In (idx, c) gdf -> (0 < attempts c)%Z ->
  In (idx, c) (get_neighborhood_params c gdf).
Proof.
  intros Hin Hc. apply get_neighborhood_params_In.
  split; [exact Hin | now apply in_neighborhood_self].
Qed.

Lemma active_of_In (grid_data : frame Row) (idx : nat) (c : Row) :
  In (idx, c) (active_of grid_data) <-> In (idx, c) grid_data /\ (0 < attempts c)%Z.
Proof. unfold active_of. rewrite filter_In. simpl. now rewrite Z.gtb_lt. Qed.

(** The three cells: A and B are neighbours of each other, C is alone. *)
Example neighborhood_of_A :
  get_neighborhood_params cellA tableABC = [(0%nat, cellA); (1%nat, cellB)].
Proof.
  unfold get_neighborhood_params, tableABC. simpl.
  rewrite (in_neighborhood_self cellA) by (simpl; lia).
  assert (HB : in_neighborhood cellA cellB = true).
  { apply in_neighborhood_spec; simpl.
    rewrite equidistant_range_near, close_range_near by lra.
    repeat split; try lia.
    - rewrite Rabs_right; lra.
    - unfold cdist; simpl. apply sqrt_le_of_sq; lra. }
  assert (HC : in_neighborhood cellA cellC = false).
  { unfold in_neighborhood; simpl.
    rewrite equidistant_range_near by lra.
    replace (Rleb (Rabs (50 - 1)) 0.3658) with false; [reflexivity |].
    symmetry. apply Rleb_false. rewrite Rabs_right; lra. }
  now rewrite HB, HC.
Qed.

Example neighborhood_of_C :
  get_neighborhood_params cellC tableABC = [(2%nat, cellC)].
Proof.
  unfold get_neighborhood_params, tableABC. simpl.
  rewrite (in_neighborhood_self cellC) by (simpl; lia).
  assert (HA : in_neighborhood cellC cellA = false).
  { unfold in_neighborhood; simpl.
    rewrite equidistant_range_far by lra.
    replace (Rleb (Rabs (1 - 50)) (0.3658 + 0.1524 * (50 - 9.144))) with false;
      [reflexivity |].
    symmetry. apply Rleb_false. rewrite Rabs_left; lra. }
  assert (HB : in_neighborhood cellC cellB = false).
  { unfold in_neighborhood; simpl.
    rewrite equidistant_range_far by lra.
    replace (Rleb (Rabs (1.2 - 50)) (0.3658 + 0.1524 * (50 - 9.144))) with false;
      [reflexivity |].
    symmetry. apply Rleb_false. rewrite Rabs_left; lra. }
  now rewrite HA, HB.
Qed.

(** C3, as stated, fails: cell A, alone in the frame searched, is returned as
    a member of its own neighbourhood. *)
Lemma target_cell_not_excluded :
  (0 < attempts cellA)%Z /\
  ~ (forall idx n,
        In (idx, n) (get_neighborhood_params cellA [(0%nat, cellA)]) ->
        (idx, n) <> (0%nat, cellA)).
Proof.
  split; [simpl; lia |].
  intros H. apply (H 0%nat cellA); [| reflexivity].
  apply self_in_neighborhood; [now left | simpl; lia].
Qed.

(** C3, amended: the cells returned for a target cell [c] are exactly the rows
    of the frame searched that have attempts and pass the distance-band test
    and the proximity test against [c]; [c] is not excluded, it is returned
    whenever it is a row of that frame with attempts. *)
Theorem neighborhood_members (c : Row) (gdf : frame Row) (idx : nat) :
  In (idx, c) gdf -> (0 < attempts c)%Z ->
  In (idx, c) (get_neighborhood_params c gdf) /\
  forall i n,
    In (i, n) (get_neighborhood_params c gdf) <->
    In (i, n) gdf /\
    Rabs (dist_to_basket n - dist_to_basket c) <= equidistant_range (dist_to_basket c) /\
    cdist (x c, y c) (x n, y n) <= close_range (dist_to_basket c) /\
    (0 < attempts n)%Z.
Proof.
  intros Hin Hc. split.
  - now apply self_in_neighborhood.
  - intros i n. rewrite get_neighborhood_params_In, in_neighborhood_spec. tauto.
Qed.

Lemma neighborhood_members_witness :
  In (0%nat, cellA) (get_neighborhood_params cellA tableABC) /\
  forall i n,
    In (i, n) (get_neighborhood_params cellA tableABC) <->
    In (i, n) tableABC /\
    Rabs (dist_to_basket n - dist_to_basket cellA)
      <= equidistant_range (dist_to_basket cellA) /\
    cdist (x cellA, y cellA) (x n, y n) <= close_range (dist_to_basket cellA) /\
    (0 < attempts n)%Z.
Proof.
  apply (neighborhood_members cellA tableABC 0%nat).
  - simpl. left. reflexivity.
  - simpl. lia.
Defined.

(** C4: a cell with attempts taken from the frame of attempted cells is a
    member of the neighbourhood selected for it in that frame, so this
    neighbourhood is never empty and [do_eb] always takes the normal path for
    it, never the fallback. *)
Theorem attempted_cell_in_own_neighborhood (grid_data : frame Row) (idx : nat) (c : Row) :
  In (idx, c) (active_of grid_data) ->
  In (idx, c) (get_neighborhood_params c (active_of grid_data)) /\
  get_neighborhood_params c (active_of grid_data) <> [] /\
  eb_params c (active_of grid_data) =
    normal_path c (get_neighborhood_params c (active_of grid_data)).
Proof.
  intros Hin.
  assert (Hc : (0 < attempts c)%Z) by (apply active_of_In in Hin; tauto).
  pose proof (self_in_neighborhood c _ idx Hin Hc) as Hself.
  split; [exact Hself |].
  unfold eb_params, estimate, normal_path.
  destruct (get_neighborhood_params c (active_of grid_data)) as [| n nb].
  - destruct Hself.
  - split; [discriminate | reflexivity].
Qed.

Lemma attempted_cell_in_own_neighborhood_witness :
  In (0%nat, cellA) (get_neighborhood_params cellA (active_of tableABCZ)) /\
  get_neighborhood_params cellA (active_of tableABCZ) <> [] /\
  eb_params cellA (active_of tableABCZ) =
    normal_path cellA (get_neighborhood_params cellA (active_of tableABCZ)).
Proof.
  apply (attempted_cell_in_own_neighborhood tableABCZ 0%nat cellA).
  simpl. left. reflexivity.
Defined.

(** C8: when the neighbourhood selected for a cell is empty, the estimator
    returns variance component 0, shrinkage weight 0 and the cell's own raw
    rate as the smoothed rate. *)
Theorem fallback_on_empty_neighborhood (c : Row) (gdf : frame Row) :
  get_neighborhood_params c gdf = [] ->
  eb_params c gdf = (0, 0, PPA c).
Proof. intros H. unfold eb_params. rewrite H. reflexivity. Qed.

Example neighborhood_of_C_in_AB : get_neighborhood_params cellC tableAB = [].
Proof.
  pose proof neighborhood_of_C as H.
  unfold get_neighborhood_params, tableABC, tableAB in *. simpl in *.
  destruct (in_neighborhood cellC cellA); [discriminate H |].
  destruct (in_neighborhood cellC cellB); [discriminate H |].
  reflexivity.
Qed.

Lemma fallback_on_empty_neighborhood_witness :
  get_neighborhood_params cellC tableAB = [] /\
  eb_params cellC tableAB = (0, 0, PPA cellC).
Proof.
  split.
  - exact neighborhood_of_C_in_AB.
  - apply (fallback_on_empty_neighborhood cellC tableAB).
    exact neighborhood_of_C_in_AB.
Defined.

(** ** Sums over a neighbourhood *)

Lemma sumR_zero (l : list R) : (forall v, In v l -> v = 0) -> sumR l = 0.
Proof.
  induction l as [| a l IH]; intros H; simpl; [reflexivity |].
  rewrite (H a) by now left.
  rewrite IH; [lra | intros v Hv; apply H; now right].
Qed.

Lemma sumZ_nonneg (l : list Z) : (forall v, In v l -> (0 <= v)%Z) -> (0 <= sumZ l)%Z.
Proof.
  induction l as [| a l IH]; intros H; simpl; [lia |].
  assert (0 <= a)%Z by (apply H; now left).
  assert (0 <= sumZ l)%Z by (apply IH; intros v Hv; apply H; now right).
  lia.
Qed.

Lemma sumZ_pos (l : list Z) :
  l <> [] -> (forall v, In v l -> (0 < v)%Z) -> (0 < sumZ l)%Z.
Proof.
  destruct l as [| a l]; intros Hne H; [congruence |]. simpl.
  assert (0 < a)%Z by (apply H; now left).
  assert (0 <= sumZ l)%Z.
  { apply sumZ_nonneg. intros v Hv. apply Z.lt_le_incl, H. now right. }
  lia.
Qed.

Lemma col_In {A B : Type} (f : A -> B) (fr : frame A) (v : B) :
  In v (col f fr) <-> exists i a, In (i, a) fr /\ v = f a.
Proof.
  unfold col. rewrite in_map_iff. split.
  - intros [[i a] [Hv Hin]]. exists i, a. now split.
  - intros [i [a [Hin Hv]]]. exists (i, a). now split.
Qed.

Lemma neighbors_have_attempts (c : Row) (gdf : frame Row) (i : nat) (n : Row) :
  In (i, n) (get_neighborhood_params c gdf) -> (0 < attempts n)%Z.
Proof.
  intros H. apply get_neighborhood_params_In in H as [_ H].
  apply in_neighborhood_spec in H. tauto.
Qed.

Lemma total_shots_pos (c : Row) (gdf : frame Row) :
  get_neighborhood_params c gdf <> [] ->
  (0 < sumZ (col (fun g : Row => attempts g) (get_neighborhood_params c gdf)))%Z.
Proof.
  intros Hne. apply sumZ_pos.
  - unfold col. destruct (get_neighborhood_params c gdf); [congruence | discriminate].
  - intros v Hv. apply col_In in Hv as [i [n [Hin ->]]].
    now apply neighbors_have_attempts in Hin.
Qed.

Lemma gamma_j_rate (n : Row) :
  (0 < attempts n)%Z -> rate_consistent n -> gamma_j n = PPA n.
Proof.
  intros Hn Hr. unfold gamma_j. rewrite Hr. unfold points_per_attempt.
  replace (attempts n =? 0)%Z with false by (symmetry; apply Z.eqb_neq; lia).
  replace (attempts n >? 0)%Z with true by (symmetry; apply Z.gtb_lt; lia).
  reflexivity.
Qed.

Lemma numerator_zero (c : Row) (gdf : frame Row) :
  (forall i n, In (i, n) (get_neighborhood_params c gdf) -> rate_consistent n) ->
  numerator_of (get_neighborhood_params c gdf) = 0.
Proof.
  intros Hr. unfold numerator_of. apply sumR_zero.
  intros v Hv. apply col_In in Hv as [i [n [Hin ->]]].
  rewrite gamma_j_rate.
  - ring.
  - now apply neighbors_have_attempts in Hin.
  - now apply (Hr i).
Qed.

(** C1: when the raw rate [PPA] of every neighbour is the quotient of that
    neighbour's own points and attempts, as [prepare_data_for_eb] computes it,
    the numerator of the variance formula, the sum over the neighbours of
    attempts times the squared difference of the two rates, is exactly 0; this
    holds of every neighbourhood the selector returns, so of the non-empty
    ones on which [do_eb] evaluates it. *)
Theorem variance_numerator_is_zero (c : Row) (gdf : frame Row) :
  (forall i n, In (i, n) (get_neighborhood_params c gdf) ->
     PPA n = points_per_attempt (points n) (attempts n)) ->
  numerator_of (get_neighborhood_params c gdf) = 0.
Proof. intros Hr. apply numerator_zero. exact Hr. Qed.

Lemma variance_numerator_is_zero_witness :
  get_neighborhood_params cellA tableABC <> [] /\
  numerator_of (get_neighborhood_params cellA tableABC) = 0.
Proof.
  split; [rewrite neighborhood_of_A; discriminate |].
  apply (variance_numerator_is_zero cellA tableABC).
  rewrite neighborhood_of_A. intros i n [H | [H | []]];
    inversion H; subst; unfold points_per_attempt; simpl; lra.
Defined.

(** ** The variance component and the shrinkage weight *)

Lemma phi_of_nonneg (neighborhood : frame Row) : 0 <= phi_of neighborhood.
Proof.
  unfold phi_of.
  destruct ((denominator_of neighborhood >? 0)%Z && Rltb 0 (n_bar_of neighborhood)).
  - apply Rmax_l.
  - lra.
Qed.

Lemma w_hat_of_bounds (phi_i gamma_i : R) (n_i : Z) :
  0 <= w_hat_of phi_i gamma_i n_i <= 1.
Proof.
  unfold w_hat_of.
  destruct ((n_i >? 0)%Z && Rneqb (phi_i + gamma_i / IZR n_i) 0).
  - split.
    + apply Rmax_l.
    + apply Rmax_lub; [lra | apply Rmin_l].
  - lra.
Qed.

Lemma w_hat_of_zero_phi (gamma_i : R) (n_i : Z) : w_hat_of 0 gamma_i n_i = 0.
Proof.
  unfold w_hat_of, w_raw.
  destruct ((n_i >? 0)%Z && Rneqb (0 + gamma_i / IZR n_i) 0); [| reflexivity].
  replace (0 / (0 + gamma_i / IZR n_i)) with 0 by (unfold Rdiv; ring).
  rewrite Rmin_right by lra. apply Rmax_left; lra.
Qed.

Lemma gamma_of_nonneg (neighborhood : frame Row) :
  (forall i n, In (i, n) neighborhood -> (0 <= points n)%Z) ->
  0 <= gamma_of neighborhood.
Proof.
  intros Hp. unfold gamma_of.
  destruct (sumZ (col (fun g : Row => attempts g) neighborhood) >? 0)%Z eqn:E; [| lra].
  apply Z.gtb_lt in E.
  apply Rmult_le_pos.
  - apply IZR_le, sumZ_nonneg. intros v Hv.
    apply col_In in Hv as [i [n [Hin ->]]]. now apply (Hp i).
  - apply Rlt_le, Rinv_0_lt_compat, IZR_lt, E.
Qed.

Lemma n_bar_of_pos (c : Row) (gdf : frame Row) :
  get_neighborhood_params c gdf <> [] ->
  0 < n_bar_of (get_neighborhood_params c gdf).
Proof.
  intros Hne. unfold n_bar_of.
  apply Rmult_lt_0_compat.
  - apply IZR_lt. now apply total_shots_pos.
  - apply Rinv_0_lt_compat, lt_0_INR.
    destruct (get_neighborhood_params c gdf); [congruence | simpl; lia].
Qed.

Lemma phi_of_zero (c : Row) (gdf : frame Row) :
  get_neighborhood_params c gdf <> [] ->
  (forall i n, In (i, n) (get_neighborhood_params c gdf) ->
     (0 <= points n)%Z /\ rate_consistent n) ->
  phi_of (get_neighborhood_params c gdf) = 0.
Proof.
  intros Hne Hw. unfold phi_of.
  destruct ((denominator_of (get_neighborhood_params c gdf) >? 0)%Z
            && Rltb 0 (n_bar_of (get_neighborhood_params c gdf))); [| reflexivity].
  rewrite numerator_zero by (intros i n Hin; now apply (Hw i)).
  apply Rmax_left.
  assert (Hg : 0 <= gamma_of (get_neighborhood_params c gdf)).
  { apply gamma_of_nonneg. intros i n Hin. now apply (Hw i). }
  pose proof (n_bar_of_pos c gdf Hne) as Hn.
  assert (0 <= gamma_of (get_neighborhood_params c gdf)
               / n_bar_of (get_neighborhood_params c gdf)).
  { apply Rmult_le_pos; [exact Hg | apply Rlt_le, Rinv_0_lt_compat, Hn]. }
  unfold Rdiv at 1. lra.
Qed.

Lemma eb_params_regional (c : Row) (gdf : frame Row) :
  get_neighborhood_params c gdf <> [] ->
  (forall i n, In (i, n) (get_neighborhood_params c gdf) ->
     (0 <= points n)%Z /\ rate_consistent n) ->
  eb_params c gdf = (0, 0, gamma_of (get_neighborhood_params c gdf)).
Proof.
  intros Hne Hw.
  pose proof (phi_of_zero c gdf Hne Hw) as Hphi.
  unfold eb_params, estimate.
  destruct (get_neighborhood_params c gdf) as [| n nb] eqn:E; [now elim Hne |].
  rewrite Hphi, w_hat_of_zero_phi. unfold theta_of. f_equal. ring.
Qed.

(** C2, as stated, fails: non-negative points and positive attempts do not
    make the stored raw rate equal to points over attempts. For cell Q, alone
    in the frame of attempted cells, the variance component is 0.81, the
    shrinkage weight is 1 and the smoothed rate is the cell's own raw rate 0.9,
    while the pooled rate of its neighbourhood is 0. *)
Lemma raw_rate_not_from_stored_points :
  (0 < attempts cellQ)%Z /\ (0 <= points cellQ)%Z /\
  active_of tableQ = tableQ /\
  get_neighborhood_params cellQ (active_of tableQ) = tableQ /\
  gamma_of (get_neighborhood_params cellQ (active_of tableQ)) = 0 /\
  eb_params cellQ (active_of tableQ) = (0.81, 1, 0.9) /\
  eb_params cellQ (active_of tableQ)
  <> (0, 0, gamma_of (get_neighborhood_params cellQ (active_of tableQ))).
Proof.
  assert (Hact : active_of tableQ = tableQ) by reflexivity.
  assert (Hnb : get_neighborhood_params cellQ tableQ = tableQ).
  { unfold get_neighborhood_params, tableQ. simpl.
    now rewrite (in_neighborhood_self cellQ) by (simpl; lia). }
  assert (Hg : gamma_of tableQ = 0).
  { unfold gamma_of, tableQ, col. simpl. lra. }
  assert (Hphi : phi_of tableQ = 0.81).
  { unfold phi_of. rewrite Hg.
    unfold denominator_of, n_bar_of, numerator_of, gamma_j, tableQ, col. simpl.
    replace (Rltb 0 (1 / 1)) with true by (symmetry; apply Rltb_true; lra).
    unfold Rmax. destruct (Rle_dec 0 _); lra. }
  assert (Hw : w_hat_of 0.81 0 1 = 1).
  { unfold w_hat_of, w_raw. simpl.
    replace (Rneqb (0.81 + 0 / 1) 0) with true by (symmetry; apply Rneqb_true; lra).
    replace (0.81 / (0.81 + 0 / 1)) with 1 by (field; lra).
    unfold Rmin. destruct (Rle_dec 1 1); [| lra].
    unfold Rmax. destruct (Rle_dec 0 1); lra. }
  assert (Hp : eb_params cellQ tableQ = (0.81, 1, 0.9)).
  { unfold eb_params. rewrite Hnb. unfold estimate, tableQ. fold tableQ.
    rewrite Hphi, Hg. simpl attempts. rewrite Hw. unfold theta_of. simpl PPA.
    f_equal. lra. }
  split; [simpl; lia | split; [simpl; lia | split; [exact Hact |]]].
  rewrite Hact, Hnb, Hg, Hp.
  split; [reflexivity | split; [reflexivity | split; [reflexivity |]]].
  intros E. inversion E. lra.
Qed.

(** C2, amended: for a cell with a non-empty neighbourhood whose members have
    non-negative points and a stored raw rate equal to their points over their
    attempts (their attempts are positive by selection), the variance
    component is 0, the shrinkage weight is 0 and the smoothed rate is the
    pooled rate of the neighbourhood, total points over total attempts; the
    cell's own raw rate does not enter the result. *)
Theorem smoothed_rate_is_regional_rate (c : Row) (gdf : frame Row) :
  get_neighborhood_params c gdf <> [] ->
  (forall i n, In (i, n) (get_neighborhood_params c gdf) ->
     (0 <= points n)%Z /\ PPA n = points_per_attempt (points n) (attempts n)) ->
  let neighborhood := get_neighborhood_params c gdf in
  let total_shots := sumZ (col (fun g : Row => attempts g) neighborhood) in
  let total_makes := sumZ (col (fun g : Row => points g) neighborhood) in
  (forall i n, In (i, n) neighborhood -> (0 < attempts n)%Z) /\
  phi_of neighborhood = 0 /\
  w_hat_of (phi_of neighborhood) (gamma_of neighborhood) (attempts c) = 0 /\
  gamma_of neighborhood = IZR total_makes / IZR total_shots /\
  eb_params c gdf = (0, 0, IZR total_makes / IZR total_shots).
Proof.
  intros Hne Hw neighborhood total_shots total_makes.
  assert (Hphi : phi_of neighborhood = 0) by now apply phi_of_zero.
  assert (Hg : gamma_of neighborhood = IZR total_makes / IZR total_shots).
  { unfold gamma_of. fold total_shots total_makes.
    replace (total_shots >? 0)%Z with true; [reflexivity |].
    symmetry. apply Z.gtb_lt. now apply total_shots_pos. }
  split; [intros i n Hin; now apply (neighbors_have_attempts c gdf i) |].
  split; [exact Hphi |].
  split; [rewrite Hphi; apply w_hat_of_zero_phi |].
  split; [exact Hg |].
  rewrite <- Hg. now apply eb_params_regional.
Qed.

Lemma smoothed_rate_is_regional_rate_witness :
  get_neighborhood_params cellA tableABC <> [] /\
  eb_params cellA tableABC = (0, 0, 25 / 18).
Proof.
  assert (Hne : get_neighborhood_params cellA tableABC <> [])
    by (rewrite neighborhood_of_A; discriminate).
  split; [exact Hne |].
  pose proof (smoothed_rate_is_regional_rate cellA tableABC Hne) as H.
  rewrite neighborhood_of_A in H. simpl in H.
  apply H.
  intros i n [Hn | [Hn | []]]; inversion Hn; subst;
    unfold points_per_attempt; simpl; split; try lia; lra.
Defined.

(** C7: whatever the cell and the frame searched, the variance component the
    estimator returns is at least 0 and the shrinkage weight lies between 0 and
    1; on the normal path they are the raw estimates floored at 0 and clamped
    into the unit interval. *)
Theorem weight_and_variance_bounds (c : Row) (gdf : frame Row) :
  0 <= fst (fst (eb_params c gdf)) /\
  0 <= snd (fst (eb_params c gdf)) <= 1 /\
  (forall phi_i gamma_i n_i,
      w_hat_of phi_i gamma_i n_i = 0 \/
      w_hat_of phi_i gamma_i n_i = Rmax 0 (Rmin 1 (w_raw phi_i gamma_i n_i))) /\
  (forall neighborhood,
      phi_of neighborhood = 0 \/
      phi_of neighborhood =
        Rmax 0 (numerator_of neighborhood / IZR (denominator_of neighborhood)
                - gamma_of neighborhood / n_bar_of neighborhood)).
Proof.
  split; [| split; [| split]].
  - unfold eb_params, estimate.
    destruct (get_neighborhood_params c gdf); simpl; [lra | apply phi_of_nonneg].
  - unfold eb_params, estimate.
    destruct (get_neighborhood_params c gdf); simpl; [lra | apply w_hat_of_bounds].
  - intros phi_i gamma_i n_i. unfold w_hat_of.
    destruct ((n_i >? 0)%Z && Rneqb (phi_i + gamma_i / IZR n_i) 0); [now right | now left].
  - intros neighborhood. unfold phi_of.
    destruct ((denominator_of neighborhood >? 0)%Z && Rltb 0 (n_bar_of neighborhood));
      [now right | now left].
Qed.

(** C9: for a cell with a non-empty neighbourhood the smoothed rate is
    [w * raw_rate + (1 - w) * gamma] with [w] the shrinkage weight, between 0
    and 1, and [gamma] the regional rate of the neighbourhood; hence it lies
    between the smaller and the larger of the raw rate and [gamma]. *)
Theorem smoothed_rate_between_raw_and_regional (c : Row) (gdf : frame Row) :
  get_neighborhood_params c gdf <> [] ->
  let gamma := gamma_of (get_neighborhood_params c gdf) in
  let w := snd (fst (eb_params c gdf)) in
  let theta := snd (eb_params c gdf) in
  0 <= w <= 1 /\
  theta = w * PPA c + (1 - w) * gamma /\
  Rmin (PPA c) gamma <= theta <= Rmax (PPA c) gamma.
Proof.
  intros Hne gamma w theta.
  assert (Hw : 0 <= w <= 1).
  { subst w. unfold eb_params, estimate.
    destruct (get_neighborhood_params c gdf); simpl; [lra | apply w_hat_of_bounds]. }
  assert (Ht : theta = w * PPA c + (1 - w) * gamma).
  { subst theta w gamma. unfold eb_params, estimate.
    destruct (get_neighborhood_params c gdf); [now elim Hne | reflexivity]. }
  split; [exact Hw | split; [exact Ht |]].
  rewrite Ht. unfold Rmin, Rmax.
  destruct (Rle_dec (PPA c) gamma); split; nra.
Qed.

Lemma smoothed_rate_between_raw_and_regional_witness :
  get_neighborhood_params cellA tableABC <> [] /\
  Rmin (PPA cellA) (gamma_of (get_neighborhood_params cellA tableABC))
    <= snd (eb_params cellA tableABC)
    <= Rmax (PPA cellA) (gamma_of (get_neighborhood_params cellA tableABC)).
Proof.
  assert (Hne : get_neighborhood_params cellA tableABC <> [])
    by (rewrite neighborhood_of_A; discriminate).
  split; [exact Hne |].
  apply (smoothed_rate_between_raw_and_regional cellA tableABC Hne).
Defined.

(** ** The output table *)

Lemma loc_eb_columns (active_grids gdf : frame Row) (idx : nat) (c : Row) :
  In (idx, c) active_grids ->
  exists c', In (idx, c') active_grids /\
    loc idx (map (fun ir => (fst ir, eb_params (snd ir) gdf)) active_grids)
    = Some (eb_params c' gdf).
Proof.
  induction active_grids as [| [i r] f IH]; intros Hin; [destruct Hin |].
  simpl. destruct (Nat.eqb i idx) eqn:E.
  - apply Nat.eqb_eq in E. subst i. exists r. split; [now left | reflexivity].
  - destruct Hin as [Hin | Hin].
    + inversion Hin; subst. rewrite Nat.eqb_refl in E. discriminate.
    + destruct (IH Hin) as [c' [Hc' Hl]]. exists c'. split; [now right | exact Hl].
Qed.

Lemma eb_output_In (grid_data : frame Row) (idx : nat) (o : EBRow) :
  In (idx, o) (eb_output grid_data) ->
  exists r, In (idx, r) grid_data /\
    o = snd (merge_row (eb_columns (active_of grid_data)) (idx, r)).
Proof.
  unfold eb_output. rewrite in_map_iff. intros [[i r] [Hm Hin]].
  simpl in Hm. inversion Hm; subst. exists r. split; [exact Hin | reflexivity].
Qed.

Lemma eb_analysis_Ok (prepared_gdf : frame Prepared) (basket_coords : R * R)
    (out : frame EBRow) :
  eb_analysis prepared_gdf basket_coords = Ok out ->
  out = eb_output (grid_data_of prepared_gdf basket_coords).
Proof.
  unfold eb_analysis.
  destruct (active_of (grid_data_of prepared_gdf basket_coords)); intros H;
    [discriminate | now inversion H].
Qed.

Lemma eb_analysis_Raise (prepared_gdf : frame Prepared) (basket_coords : R * R) :
  (forall idx p, In (idx, p) prepared_gdf -> (attempts p <= 0)%Z) ->
  eb_analysis prepared_gdf basket_coords
  = Raise (ValueError "No grids with attempts for analysis.").
Proof.
  intros H. unfold eb_analysis.
  destruct (active_of (grid_data_of prepared_gdf basket_coords)) as [| [i r] f] eqn:E;
    [reflexivity |].
  assert (Hin : In (i, r) (active_of (grid_data_of prepared_gdf basket_coords)))
    by (rewrite E; now left).
  apply active_of_In in Hin as [Hin Hr].
  unfold grid_data_of in Hin. apply in_map_iff in Hin as [[j p] [Hm Hp]].
  simpl in Hm. inversion Hm; subst. simpl in Hr.
  specialize (H _ _ Hp). lia.
Qed.

(** C6: in the table [do_eb] returns, a cell with zero attempts has variance
    component 0, shrinkage weight 0 and smoothed rate 0, whatever its geometry
    and whatever the other cells hold. *)
Theorem zero_attempt_cells_are_zero (prepared_gdf : frame Prepared)
    (basket_coords : R * R) (out : frame EBRow) (idx : nat) (o : EBRow) :
  eb_analysis prepared_gdf basket_coords = Ok out ->
  In (idx, o) out ->
  attempts o = 0%Z ->
  CellVar o = Some 0 /\ ShrinkWt o = Some 0 /\ EB_PPA o = Some 0.
Proof.
  intros Hok Hin Hz. apply eb_analysis_Ok in Hok. subst out.
  apply eb_output_In in Hin as [r [_ ->]]. simpl in *.
  unfold where_attempts. rewrite Hz. simpl. repeat split.
Qed.

Lemma zero_attempt_cells_are_zero_witness :
  eb_analysis preparedABCZ (0, 0) = Ok (eb_output (grid_data_of preparedABCZ (0, 0))) /\
  attempts outZ = 0%Z /\
  CellVar outZ = Some 0 /\ ShrinkWt outZ = Some 0 /\ EB_PPA outZ = Some 0.
Proof.
  assert (Hok : eb_analysis preparedABCZ (0, 0)
                = Ok (eb_output (grid_data_of preparedABCZ (0, 0)))) by reflexivity.
  split; [exact Hok |]. split; [reflexivity |].
  apply (zero_attempt_cells_are_zero preparedABCZ (0, 0) _ 3%nat outZ Hok).
  - unfold eb_output, grid_data_of, preparedABCZ. simpl.
    right. right. right. left. reflexivity.
  - reflexivity.
Defined.

(** C5, as stated, fails: a table whose only cell has no attempt makes the
    analysis raise, and shots that fall in no cell make the whole of [do_eb]
    raise. *)
Lemma no_attempt_raises :
  well_prepared prepZ /\
  eb_analysis [(0%nat, prepZ)] (0, 0)
    = Raise (ValueError "No grids with attempts for analysis.") /\
  do_eb [stray_shot] [grid prepZ] (0, 0)
    = Raise (ValueError
        "No shots were assigned to any grid cell. Check coordinate system compatibility.").
Proof.
  split; [| split; reflexivity].
  unfold well_prepared, rate_consistent, points_per_attempt. simpl.
  repeat split; lia.
Qed.

(** C5, amended: when at least one cell of the table has attempts, the
    analysis does not raise; it returns one row per cell, in the order and
    under the labels of the input, each row with a variance component, a
    shrinkage weight and a smoothed rate that are numbers (none is missing). *)
Theorem analysis_completes_with_some_attempt (prepared_gdf : frame Prepared)
    (basket_coords : R * R) :
  (exists idx p, In (idx, p) prepared_gdf /\ (0 < attempts p)%Z) ->
  exists out,
    eb_analysis prepared_gdf basket_coords = Ok out /\
    map (fun io : nat * EBRow => (fst io, prepared (row (snd io)))) out = prepared_gdf /\
    forall idx o, In (idx, o) out ->
      exists phi w theta,
        CellVar o = Some phi /\ ShrinkWt o = Some w /\ EB_PPA o = Some theta.
Proof.
  intros [idx [p [Hp Ha]]].
  exists (eb_output (grid_data_of prepared_gdf basket_coords)).
  split; [| split].
  - unfold eb_analysis.
    destruct (active_of (grid_data_of prepared_gdf basket_coords)) eqn:E; [| reflexivity].
    assert (Hin : In (idx, annotate basket_coords p)
                     (active_of (grid_data_of prepared_gdf basket_coords))).
    { apply active_of_In. split; [| exact Ha].
      unfold grid_data_of. apply in_map_iff. exists (idx, p). now split. }
    rewrite E in Hin. destruct Hin.
  - unfold eb_output, grid_data_of. rewrite !map_map.
    rewrite <- (map_id prepared_gdf) at 2.
    apply map_ext. intros [i q]. reflexivity.
  - intros i o Hin. apply eb_output_In in Hin as [r [Hr ->]]. simpl.
    unfold where_attempts.
    destruct (attempts r >? 0)%Z eqn:E.
    + apply Z.gtb_lt in E.
      assert (Hact : In (i, r) (active_of (grid_data_of prepared_gdf basket_coords)))
        by (apply active_of_In; now split).
      destruct (loc_eb_columns _ (active_of (grid_data_of prepared_gdf basket_coords))
                  i r Hact) as [c' [_ Hl]].
      unfold eb_columns. rewrite Hl. simpl.
      destruct (eb_params c' _) as [[phi w] theta]. now exists phi, w, theta.
    + now exists 0, 0, 0.
Qed.

Lemma analysis_completes_with_some_attempt_witness :
  exists out,
    eb_analysis preparedABCZ (0, 0) = Ok out /\
    map (fun io : nat * EBRow => (fst io, prepared (row (snd io)))) out = preparedABCZ /\
    forall idx o, In (idx, o) out ->
      exists phi w theta,
        CellVar o = Some phi /\ ShrinkWt o = Some w /\ EB_PPA o = Some theta.
Proof.
  apply (analysis_completes_with_some_attempt preparedABCZ (0, 0)).
  exists 0%nat, prepA. split; [simpl; left; reflexivity | simpl; lia].
Defined.

(** ** What [prepare_data_for_eb] establishes *)

Lemma enumerate_from_labels {A : Type} (l : list A) (i : nat) :
  map fst (enumerate_from i l) = seq i (List.length l).
Proof.
  revert i. induction l as [| a l IH]; intros i; simpl; [reflexivity |].
  now rewrite IH.
Qed.

Lemma grid_stats_row_label (swg : list (Shot * option nat)) (ig : nat * Grid) :
  fst (grid_stats_row swg ig) = fst ig.
Proof.
  destruct ig as [i g]. unfold grid_stats_row.
  destruct (shots_of i swg); reflexivity.
Qed.

Lemma shots_of_In (i : nat) (swg : list (Shot * option nat)) (s : Shot) :
  In s (shots_of i swg) -> exists o, In (s, o) swg.
Proof.
  unfold shots_of. rewrite in_map_iff. intros [[s' o] [Hs Hin]].
  simpl in Hs. subst s'. apply filter_In in Hin as [Hin _]. now exists o.
Qed.

Lemma grid_stats_row_well_prepared (swg : list (Shot * option nat)) (ig : nat * Grid) :
  (forall s o, In (s, o) swg -> (made s = 0 \/ made s = 1)%Z /\ (0 < action s)%Z) ->
  well_prepared (snd (grid_stats_row swg ig)).
Proof.
  intros Hv. destruct ig as [i g]. unfold grid_stats_row.
  destruct (shots_of i swg) as [| s ss] eqn:E; simpl.
  - unfold well_prepared, rate_consistent, points_per_attempt; simpl.
    repeat split; lia.
  - unfold well_prepared, rate_consistent; simpl. repeat split.
    + lia.
    + apply (sumZ_nonneg (_ :: _)). intros v Hv'.
      change (In v (map (fun s0 => (action s0 * made s0)%Z) (s :: ss))) in Hv'.
      apply in_map_iff in Hv' as [t [<- Ht]].
      rewrite <- E in Ht. apply shots_of_In in Ht as [o Ht].
      destruct (Hv _ _ Ht) as [[Hm | Hm] Ha]; rewrite Hm; lia.
Qed.

Lemma prepare_data_for_eb_Ok (swg : list (Shot * option nat)) (grid_gdf : list Grid)
    (prepared_gdf : frame Prepared) :
  prepare_data_for_eb swg grid_gdf = Ok prepared_gdf ->
  map fst prepared_gdf = seq 0 (List.length grid_gdf) /\
  map (fun ip : nat * Prepared => grid (snd ip)) prepared_gdf = grid_gdf /\
  forall idx p, In (idx, p) prepared_gdf -> well_prepared p.
Proof.
  unfold prepare_data_for_eb. intros H.
  destruct swg as [| s0 swg0]; [discriminate H |].
  remember (s0 :: swg0) as swg eqn:Eswg.
  destruct (forallb made_is_0_or_1 swg) eqn:Hmade; [| discriminate H].
  destruct (existsb action_not_positive swg) eqn:Hact; [discriminate H |].
  destruct grid_gdf as [| g0 gs]; [discriminate H |].
  remember (g0 :: gs) as grid_gdf eqn:Egrid.
  destruct (existsb is_assigned swg) eqn:Hass; [| discriminate H].
  simpl in H. inversion H; subst prepared_gdf; clear H.
  assert (Hv : forall s o, In (s, o) swg ->
                 (made s = 0 \/ made s = 1)%Z /\ (0 < action s)%Z).
  { intros s o Hin. split.
    - rewrite forallb_forall in Hmade. specialize (Hmade _ Hin).
      unfold made_is_0_or_1 in Hmade. simpl in Hmade.
      apply orb_true_iff in Hmade as [Hm | Hm]; apply Z.eqb_eq in Hm; tauto.
    - destruct (Z.leb_spec (action s) 0) as [Hle | Hlt]; [| exact Hlt].
      assert (existsb action_not_positive swg = true).
      { apply existsb_exists. exists (s, o). split; [exact Hin |].
        unfold action_not_positive. simpl. now apply Z.leb_le. }
      congruence. }
  split; [| split].
  - rewrite map_map.
    rewrite (map_ext _ fst) by (intros ig; apply grid_stats_row_label).
    apply enumerate_from_labels.
  - rewrite map_map. unfold enumerate. clear Egrid. generalize 0%nat.
    induction grid_gdf as [| g l IH]; intros i; simpl; [reflexivity |].
    rewrite IH. f_equal. destruct (shots_of i swg); reflexivity.
  - intros idx p Hin. apply in_map_iff in Hin as [ig [Hp _]].
    replace p with (snd (grid_stats_row swg ig)) by now rewrite Hp.
    now apply grid_stats_row_well_prepared.
Qed.

(** ** From [do_eb] to the estimator

    In the table [do_eb] returns, the three columns of a cell with attempts are
    the estimator's result for that cell in the frame of attempted cells; for
    the rows [prepare_data_for_eb] builds from integer shot values, this
    result is [(0, 0, gamma)]. *)

Lemma loc_unique {A B : Type} (g : A -> B) (f : frame A) (idx : nat) (a : A) :
  NoDup (map fst f) -> In (idx, a) f ->
  loc idx (map (fun ir => (fst ir, g (snd ir))) f) = Some (g a).
Proof.
  induction f as [| [i r] f IH]; intros Hnd Hin; [destruct Hin |].
  simpl in *. inversion Hnd as [| ? ? Hni Hnd']; subst.
  destruct Hin as [Hin | Hin].
  - inversion Hin; subst. now rewrite Nat.eqb_refl.
  - destruct (Nat.eqb i idx) eqn:E.
    + apply Nat.eqb_eq in E. subst i. exfalso. apply Hni.
      apply in_map_iff. exists (idx, a). now split.
    + now apply IH.
Qed.

Lemma NoDup_labels_filter {A : Type} (f : frame A) (keep : nat * A -> bool) :
  NoDup (map fst f) -> NoDup (map fst (filter keep f)).
Proof.
  induction f as [| ia f IH]; intros Hnd; simpl; [constructor |].
  inversion Hnd as [| ? ? Hni Hnd']; subst.
  destruct (keep ia); simpl; [| now apply IH].
  constructor; [| now apply IH].
  intros Hin. apply Hni. apply in_map_iff in Hin as [jb [Hj Hin]].
  apply filter_In in Hin as [Hin _]. apply in_map_iff. now exists jb.
Qed.

Lemma eb_output_attempted (grid_data : frame Row) (idx : nat) (o : EBRow) :
  NoDup (map fst grid_data) ->
  In (idx, o) (eb_output grid_data) -> (0 < attempts o)%Z ->
  In (idx, row o) (active_of grid_data) /\
  (CellVar o, ShrinkWt o, EB_PPA o)
  = (let t := eb_params (row o) (active_of grid_data) in
     (Some (fst (fst t)), Some (snd (fst t)), Some (snd t))).
Proof.
  intros Hnd Hin Ha. apply eb_output_In in Hin as [r [Hr ->]]. simpl in *.
  assert (Hact : In (idx, r) (active_of grid_data)) by (apply active_of_In; now split).
  split; [exact Hact |].
  unfold where_attempts.
  replace (attempts r >? 0)%Z with true by (symmetry; now apply Z.gtb_lt).
  unfold eb_columns.
  rewrite (loc_unique (fun c => eb_params c (active_of grid_data)) _ idx r);
    [reflexivity | now apply NoDup_labels_filter | exact Hact].
Qed.

Lemma do_eb_attempted_rows (swg : list (Shot * option nat)) (grid_gdf : list Grid)
    (basket_coords : R * R) (out : frame EBRow) (idx : nat) (o : EBRow) :
  do_eb swg grid_gdf basket_coords = Ok out ->
  In (idx, o) out -> (0 < attempts o)%Z ->
  exists prepared_gdf,
    prepare_data_for_eb swg grid_gdf = Ok prepared_gdf /\
    let active_grids := active_of (grid_data_of prepared_gdf basket_coords) in
    CellVar o = Some 0 /\ ShrinkWt o = Some 0 /\
    EB_PPA o = Some (gamma_of (get_neighborhood_params (row o) active_grids)).
Proof.
  unfold do_eb. intros Hok Hin Ha.
  destruct (prepare_data_for_eb swg grid_gdf) as [prepared_gdf | e] eqn:Hp;
    [| discriminate Hok].
  exists prepared_gdf. split; [reflexivity |].
  apply prepare_data_for_eb_Ok in Hp as [Hlab [_ Hwp]].
  apply eb_analysis_Ok in Hok. subst out.
  set (grid_data := grid_data_of prepared_gdf basket_coords) in *.
  assert (Hnd : NoDup (map fst grid_data)).
  { unfold grid_data, grid_data_of. rewrite map_map. simpl.
    change (NoDup (map fst prepared_gdf)). rewrite Hlab. apply seq_NoDup. }
  destruct (eb_output_attempted grid_data idx o Hnd Hin Ha) as [Hact Hcols].
  assert (Hne : get_neighborhood_params (row o) (active_of grid_data) <> []).
  { intros E. pose proof (self_in_neighborhood (row o) _ idx Hact Ha) as Hself.
    rewrite E in Hself. destruct Hself. }
  rewrite (eb_params_regional _ _ Hne) in Hcols.
  - simpl in Hcols. inversion Hcols. now repeat split.
  - intros i n Hn. apply get_neighborhood_params_In in Hn as [Hn _].
    apply active_of_In in Hn as [Hn _].
    unfold grid_data, grid_data_of in Hn. apply in_map_iff in Hn as [[j p] [Hm Hj]].
    simpl in Hm. inversion Hm; subst. simpl.
    destruct (Hwp _ _ Hj) as [_ [Hpts Hrate]]. now split.
Qed.

(** * Further properties of the code *)

(** ** The radii and the neighbour relation *)

(** X1: both radii are non-decreasing in the distance to the basket, the
    threshold included: a cell farther from the basket never gets a smaller
    neighbourhood radius. *)
Theorem radii_monotone (d1 d2 : R) :
  d1 <= d2 ->
  equidistant_range d1 <= equidistant_range d2 /\ close_range d1 <= close_range d2.
Proof.
  intros H.
  destruct (Rlt_dec d1 9.144) as [H1 | H1]; destruct (Rlt_dec d2 9.144) as [H2 | H2].
  - rewrite !equidistant_range_near, !close_range_near by assumption. lra.
  - rewrite (equidistant_range_near d1), (close_range_near d1) by assumption.
    rewrite equidistant_range_far, close_range_far by lra. lra.
  - lra.
  - rewrite !equidistant_range_far, !close_range_far by lra. lra.
Qed.

Lemma radii_monotone_witness :
  9.1 <= 9.5 /\
  equidistant_range 9.1 <= equidistant_range 9.5 /\ close_range 9.1 <= close_range 9.5.
Proof.
  assert (H : 9.1 <= 9.5) by lra.
  split; [exact H | apply (radii_monotone 9.1 9.5 H)].
Defined.

Lemma cdist_sym (p q : R * R) : cdist p q = cdist q p.
Proof. unfold cdist. f_equal. ring. Qed.

(** X2: between two cells that are both nearer to the basket than 9.144 and
    both have attempts, the neighbour test is symmetric: each selects the
    other or neither does. *)
Theorem neighbors_symmetric_near_basket (c n : Row) :
  dist_to_basket c < 9.144 -> dist_to_basket n < 9.144 ->
  (0 < attempts c)%Z -> (0 < attempts n)%Z ->
  in_neighborhood c n = in_neighborhood n c.
Proof.
  intros Hc Hn Hac Han. unfold in_neighborhood.
  rewrite !equidistant_range_near, !close_range_near by assumption.
  rewrite (cdist_sym (x c, y c)), (Rabs_minus_sym (dist_to_basket n)).
  replace (attempts n >? 0)%Z with true by (symmetry; now apply Z.gtb_lt).
  replace (attempts c >? 0)%Z with true by (symmetry; now apply Z.gtb_lt).
  reflexivity.
Qed.

Lemma neighbors_symmetric_near_basket_witness :
  in_neighborhood cellA cellB = in_neighborhood cellB cellA.
Proof.
  apply (neighbors_symmetric_near_basket cellA cellB); simpl; try lra; lia.
Defined.

(** X3: across the threshold the neighbour test is not symmetric, because it
    uses the radii of the target cell only: the cell at distance 9.5 selects
    the cell at distance 9.1, which does not select it back. *)
Theorem neighbors_not_symmetric :
  exists c n : Row,
    (0 < attempts c)%Z /\ (0 < attempts n)%Z /\
    in_neighborhood c n = true /\ in_neighborhood n c = false.
Proof.
  exists cellF, cellN. split; [simpl; lia | split; [simpl; lia | split]].
  - apply in_neighborhood_spec; simpl.
    rewrite equidistant_range_far, close_range_far by lra.
    repeat split; try lia.
    + rewrite Rabs_left; lra.
    + unfold cdist; simpl. apply sqrt_le_of_sq; lra.
  - unfold in_neighborhood; simpl.
    rewrite equidistant_range_near by lra.
    replace (Rleb (Rabs (9.5 - 9.1)) 0.3658) with false; [reflexivity |].
    symmetry. apply Rleb_false. rewrite Rabs_right; lra.
Qed.

(** X4: the selector applies the attempts test itself, so searching the frame
    of attempted cells, as [do_eb] does, selects the same rows as searching
    the whole grid. *)
Theorem neighborhood_ignores_unattempted (c : Row) (grid_data : frame Row) :
  get_neighborhood_params c (active_of grid_data) = get_neighborhood_params c grid_data.
Proof.
  unfold get_neighborhood_params, active_of.
  induction grid_data as [| [i r] f IH]; simpl; [reflexivity |].
  destruct (attempts r >? 0)%Z eqn:E; simpl.
  - now rewrite IH.
  - rewrite IH. unfold in_neighborhood at 2. rewrite E.
    now rewrite andb_false_r.
Qed.

(** ** [prepare_data_for_eb]: validation and bookkeeping *)

Lemma prepare_data_for_eb_rows (swg : list (Shot * option nat)) (grid_gdf : list Grid)
    (prepared_gdf : frame Prepared) :
  prepare_data_for_eb swg grid_gdf = Ok prepared_gdf ->
  prepared_gdf = map (grid_stats_row swg) (enumerate grid_gdf).
Proof.
  unfold prepare_data_for_eb. intros H.
  destruct swg as [| s0 swg0]; [discriminate H |].
  destruct (forallb made_is_0_or_1 (s0 :: swg0)); [| discriminate H].
  destruct (existsb action_not_positive (s0 :: swg0)); [discriminate H |].
  destruct grid_gdf as [| g0 gs]; [discriminate H |].
  destruct (existsb is_assigned (s0 :: swg0)); [| discriminate H].
  simpl in H. now inversion H.
Qed.

Lemma sumZ_app (l1 l2 : list Z) : sumZ (l1 ++ l2) = (sumZ l1 + sumZ l2)%Z.
Proof. induction l1 as [| a l IH]; simpl; [reflexivity | rewrite IH; lia]. Qed.

Lemma sumZ_map_add {A : Type} (f g : A -> Z) (l : list A) :
  sumZ (map (fun a => f a + g a)%Z l) = (sumZ (map f l) + sumZ (map g l))%Z.
Proof. induction l as [| a l IH]; simpl; [reflexivity | rewrite IH; lia]. Qed.

Lemma sumZ_indicator (j : nat) (v : Z) (a n : nat) :
  sumZ (map (fun i => if Nat.eqb j i then v else 0%Z) (seq a n))
  = if (a <=? j)%nat && (j <? a + n)%nat then v else 0%Z.
Proof.
  revert a. induction n as [| n IH]; intros a; simpl.
  - replace (j <? a + 0)%nat with (j <? a)%nat by (f_equal; lia).
    destruct (Nat.leb_spec a j), (Nat.ltb_spec j a); simpl; try reflexivity; lia.
  - rewrite IH.
    destruct (Nat.eqb_spec j a), (Nat.leb_spec a j), (Nat.leb_spec (S a) j),
      (Nat.ltb_spec j (S a + n)), (Nat.ltb_spec j (a + S n)); simpl; lia.
Qed.

(** The shots grouped under the labels [a], ..., [a + n - 1], summed. *)
Lemma sum_over_groups (f : Shot -> Z) (swg : list (Shot * option nat)) (a n : nat) :
  sumZ (map (fun i => sumZ (map f (shots_of i swg))) (seq a n))
  = sumZ (map (fun s => f (fst s))
       (filter (fun s => match snd s with
                         | Some j => (a <=? j)%nat && (j <? a + n)%nat
                         | None => false
                         end) swg)).
Proof.
  induction swg as [| [s o] swg IH].
  - simpl. induction (seq a n) as [| i l IHl]; simpl; [reflexivity | now rewrite IHl].
  - assert (E : forall i, sumZ (map f (shots_of i ((s, o) :: swg)))
                = ((match o with
                    | Some j => if Nat.eqb j i then f s else 0
                    | None => 0
                    end) + sumZ (map f (shots_of i swg)))%Z).
    { intros i. unfold shots_of, assigned_to. simpl.
      destruct o as [j |]; [destruct (Nat.eqb j i) |]; reflexivity. }
    rewrite (map_ext _ _ E), sumZ_map_add, IH. clear E IH.
    destruct o as [j |]; simpl.
    + rewrite (sumZ_indicator j (f s) a n).
      destruct ((a <=? j)%nat && (j <? a + n)%nat); simpl; lia.
    + replace (sumZ (map (fun _ : nat => 0%Z) (seq a n))) with 0%Z; [reflexivity |].
      induction (seq a n) as [| i l IHl]; simpl; [reflexivity | now rewrite <- IHl].
Qed.

Lemma length_sumZ {A : Type} (l : list A) :
  Z.of_nat (List.length l) = sumZ (map (fun _ => 1%Z) l).
Proof.
  unfold sumZ. induction l as [| a l IHl]; [reflexivity |].
  change (List.length (a :: l)) with (S (List.length l)).
  rewrite Nat2Z.inj_succ. cbn [map fold_right]. rewrite <- IHl. lia.
Qed.

Lemma grid_stats_row_counts (swg : list (Shot * option nat)) (i : nat) (g : Grid) :
  attempts (snd (grid_stats_row swg (i, g)))
  = sumZ (map (fun _ => 1%Z) (shots_of i swg)) /\
  points (snd (grid_stats_row swg (i, g)))
  = sumZ (map (fun s => action s * made s)%Z (shots_of i swg)).
Proof.
  unfold grid_stats_row.
  destruct (shots_of i swg) as [| s ss].
  - split; reflexivity.
  - split; [exact (length_sumZ (s :: ss)) | reflexivity].
Qed.

Lemma sum_over_enumerate {A : Type} (k : nat * A -> Z) (h : nat -> Z) (l : list A) (a : nat) :
  (forall i g, k (i, g) = h i) ->
  sumZ (map k (enumerate_from a l)) = sumZ (map h (seq a (List.length l))).
Proof.
  intros Hk. revert a. induction l as [| g l IH]; intros a; simpl; [reflexivity |].
  now rewrite Hk, IH.
Qed.

Lemma filter_in_range (swg : list (Shot * option nat)) (n : nat) :
  (forall s j, In (s, Some j) swg -> (j < n)%nat) ->
  filter (fun s => match snd s with
                   | Some j => (0 <=? j)%nat && (j <? 0 + n)%nat
                   | None => false
                   end) swg
  = filter is_assigned swg.
Proof.
  intros H. apply filter_ext_in. intros [s [j |]] Hin; simpl; [| reflexivity].
  specialize (H _ _ Hin). unfold is_assigned. simpl.
  destruct (Nat.ltb_spec j n); [reflexivity | lia].
Qed.

Example prepare_shots3 :
  prepare_data_for_eb shots3 grid2 = Ok (map (grid_stats_row shots3) (enumerate grid2)).
Proof. reflexivity. Qed.

(** ** [do_eb] from the shots to the output table *)

Lemma prepare_data_for_eb_valid (swg : list (Shot * option nat)) (grid_gdf : list Grid)
    (prepared_gdf : frame Prepared) :
  prepare_data_for_eb swg grid_gdf = Ok prepared_gdf ->
  (forall s o, In (s, o) swg -> (made s = 0 \/ made s = 1)%Z /\ (0 < action s)%Z) /\
  (exists s j, In (s, Some j) swg).
Proof.
  unfold prepare_data_for_eb. intros H.
  destruct swg as [| s0 swg0]; [discriminate H |].
  remember (s0 :: swg0) as swg eqn:Eswg.
  destruct (forallb made_is_0_or_1 swg) eqn:Hmade; [| discriminate H].
  destruct (existsb action_not_positive swg) eqn:Hact; [discriminate H |].
  destruct grid_gdf as [| g0 gs]; [discriminate H |].
  destruct (existsb is_assigned swg) eqn:Hass; [| discriminate H].
  split.
  - intros s o Hin. split.
    + rewrite forallb_forall in Hmade. specialize (Hmade _ Hin).
      unfold made_is_0_or_1 in Hmade. simpl in Hmade.
      apply orb_true_iff in Hmade as [Hm | Hm]; apply Z.eqb_eq in Hm; tauto.
    + destruct (Z.leb_spec (action s) 0) as [Hle | Hlt]; [| exact Hlt].
      assert (existsb action_not_positive swg = true).
      { apply existsb_exists. exists (s, o). split; [exact Hin |].
        unfold action_not_positive. simpl. now apply Z.leb_le. }
      congruence.
  - apply existsb_exists in Hass as [[s [j |]] [Hin Hs]]; [| discriminate Hs].
    now exists s, j.
Qed.

Lemma sumZ_map_le {A : Type} (f g : A -> Z) (l : list A) :
  (forall a, In a l -> (f a <= g a)%Z) -> (sumZ (map f l) <= sumZ (map g l))%Z.
Proof.
  induction l as [| a l IH]; intros H; simpl; [lia |].
  assert (f a <= g a)%Z by (apply H; now left).
  assert (sumZ (map f l) <= sumZ (map g l))%Z by (apply IH; intros b Hb; apply H; now right).
  lia.
Qed.

Lemma sumZ_map_scale {A : Type} (k : Z) (g : A -> Z) (l : list A) :
  sumZ (map (fun a => k * g a)%Z l) = (k * sumZ (map g l))%Z.
Proof. induction l as [| a l IH]; simpl; [lia | rewrite IH; lia]. Qed.

Lemma points_per_attempt_bounds (pts att : Z) :
  (0 <= pts)%Z -> (pts <= 3 * att)%Z -> 0 <= points_per_attempt pts att <= 3.
Proof.
  intros H0 H3. unfold points_per_attempt.
  destruct (att >? 0)%Z eqn:E; [| lra].
  apply Z.gtb_lt in E.
  assert (Ha : 0 < IZR att) by now apply IZR_lt.
  apply IZR_le in H0. apply IZR_le in H3. rewrite mult_IZR in H3.
  split.
  - apply Rmult_le_pos; [exact H0 | apply Rlt_le, Rinv_0_lt_compat, Ha].
  - apply (Rmult_le_reg_r (IZR att)); [exact Ha |].
    unfold Rdiv. rewrite Rmult_assoc, Rinv_l by lra. lra.
Qed.

Lemma grid_stats_row_three (swg : list (Shot * option nat)) (ig : nat * Grid) :
  (forall s o, In (s, o) swg ->
     (made s = 0 \/ made s = 1)%Z /\ (0 < action s)%Z /\ (action s <= 3)%Z) ->
  (points (snd (grid_stats_row swg ig)) <= 3 * attempts (snd (grid_stats_row swg ig)))%Z.
Proof.
  intros Hv. destruct ig as [i g].
  destruct (grid_stats_row_counts swg i g) as [-> ->].
  rewrite <- (sumZ_map_scale 3 (fun _ => 1%Z)).
  apply sumZ_map_le. intros s Hs. apply shots_of_In in Hs as [o Hs].
  destruct (Hv _ _ Hs) as [[Hm | Hm] [H0 H3]]; rewrite Hm; lia.
Qed.

Lemma filter_none {A : Type} (f : A -> bool) (l : list A) :
  (forall a, In a l -> f a = false) -> filter f l = [].
Proof.
  induction l as [| a l IH]; intros H; simpl; [reflexivity |].
  rewrite (H a) by now left. apply IH. intros b Hb. apply H. now right.
Qed.

(** X8: when no shot is worth more than 3 points, no cell of the prepared
    frame has more points than three times its attempts, so the frame of
    invalid grids is empty, and every raw rate lies between 0 and 3. *)
Theorem prepared_rates_at_most_three
    (swg : list (Shot * option nat)) (grid_gdf : list Grid)
    (prepared_gdf : frame Prepared) (basket_coords : R * R) :
  prepare_data_for_eb swg grid_gdf = Ok prepared_gdf ->
  (forall s o, In (s, o) swg -> (action s <= 3)%Z) ->
  invalid_grids (grid_data_of prepared_gdf basket_coords) = [] /\
  forall idx p, In (idx, p) prepared_gdf ->
    (points p <= 3 * attempts p)%Z /\ 0 <= PPA p <= 3.
Proof.
  intros Hok H3.
  destruct (prepare_data_for_eb_valid _ _ _ Hok) as [Hv _].
  destruct (prepare_data_for_eb_Ok _ _ _ Hok) as [_ [_ Hwp]].
  pose proof (prepare_data_for_eb_rows _ _ _ Hok) as Hrows.
  assert (Hb : forall idx p, In (idx, p) prepared_gdf -> (points p <= 3 * attempts p)%Z).
  { intros idx p Hin. rewrite Hrows in Hin.
    apply in_map_iff in Hin as [ig [Hp _]].
    replace p with (snd (grid_stats_row swg ig)) by now rewrite Hp.
    apply grid_stats_row_three. intros s o Hs.
    destruct (Hv _ _ Hs) as [Hm Ha]. repeat split; try assumption. now apply (H3 s o). }
  split.
  - unfold invalid_grids, grid_data_of. apply filter_none.
    intros [i r] Hin. apply in_map_iff in Hin as [[j p] [Hm Hp]].
    simpl in Hm. inversion Hm; subst. simpl.
    rewrite Z.gtb_ltb. apply Z.ltb_ge.
    specialize (Hb _ _ Hp). lia.
  - intros idx p Hin. split; [now apply (Hb idx) |].
    destruct (Hwp _ _ Hin) as [_ [H0 Hr]]. rewrite Hr.
    apply points_per_attempt_bounds; [exact H0 | now apply (Hb idx)].
Qed.

Lemma actions_shots3 (s : Shot) (o : option nat) :
  In (s, o) shots3 -> (action s <= 3)%Z.
Proof.
  intros [H | [H | [H | []]]]; inversion H; subst; simpl; lia.
Qed.

Lemma prepared_rates_at_most_three_witness :
  invalid_grids (grid_data_of (map (grid_stats_row shots3) (enumerate grid2)) (0, 0)) = [] /\
  forall idx p, In (idx, p) (map (grid_stats_row shots3) (enumerate grid2)) ->
    (points p <= 3 * attempts p)%Z /\ 0 <= PPA p <= 3.
Proof.
  exact (prepared_rates_at_most_three shots3 grid2 _ (0, 0) prepare_shots3 actions_shots3).
Defined.

Lemma do_eb_Ok (swg : list (Shot * option nat)) (grid_gdf : list Grid)
    (basket_coords : R * R) (out : frame EBRow) :
  do_eb swg grid_gdf basket_coords = Ok out ->
  exists prepared_gdf,
    prepare_data_for_eb swg grid_gdf = Ok prepared_gdf /\
    out = eb_output (grid_data_of prepared_gdf basket_coords) /\
    map (fun io : nat * EBRow => (fst io, row (snd io))) out
    = grid_data_of prepared_gdf basket_coords.
Proof.
  unfold do_eb. intros Hok.
  destruct (prepare_data_for_eb swg grid_gdf) as [prepared_gdf | e] eqn:Hp;
    [| discriminate Hok].
  exists prepared_gdf. split; [reflexivity |].
  apply eb_analysis_Ok in Hok. subst out. split; [reflexivity |].
  unfold eb_output. rewrite map_map.
  rewrite <- (map_id (grid_data_of prepared_gdf basket_coords)) at 2.
  apply map_ext. intros [i r]. reflexivity.
Qed.

Example do_eb_shots3 : do_eb shots3 grid2 (0, 0) = Ok out3.
Proof. reflexivity. Qed.

Example out3_row0_In : In (0%nat, out3_row0) out3.
Proof. left. reflexivity. Qed.

Lemma eb_output_of_active (grid_data : frame Row) (idx : nat) (o : EBRow) :
  NoDup (map fst (active_of grid_data)) ->
  In (idx, o) (eb_output grid_data) -> (0 < attempts o)%Z ->
  In (idx, row o) (active_of grid_data) /\
  (CellVar o, ShrinkWt o, EB_PPA o)
  = (let t := eb_params (row o) (active_of grid_data) in
     (Some (fst (fst t)), Some (snd (fst t)), Some (snd t))).
Proof.
  intros Hnd Hin Ha. apply eb_output_In in Hin as [r [Hr ->]]. simpl in *.
  assert (Hact : In (idx, r) (active_of grid_data)) by (apply active_of_In; now split).
  split; [exact Hact |].
  unfold where_attempts.
  replace (attempts r >? 0)%Z with true by (symmetry; now apply Z.gtb_lt).
  unfold eb_columns.
  rewrite (loc_unique (fun c => eb_params c (active_of grid_data)) _ idx r);
    [reflexivity | exact Hnd | exact Hact].
Qed.

(** X9: when the labels of the attempted cells are distinct and every
    attempted cell has non-negative points and a stored raw rate equal to its
    points over its attempts, then in the table the analysis returns the
    variance component and the shrinkage weight of every cell are 0, and the
    smoothed rate of a cell is the pooled rate (total points over total
    attempts) of the neighbourhood selected for it among the attempted cells,
    or 0 for a cell without attempts. *)
Theorem eb_analysis_output_columns
    (prepared_gdf : frame Prepared) (basket_coords : R * R)
    (out : frame EBRow) (idx : nat) (o : EBRow) :
  eb_analysis prepared_gdf basket_coords = Ok out ->
  NoDup (map fst (active_of (grid_data_of prepared_gdf basket_coords))) ->
  (forall i p, In (i, p) prepared_gdf -> (0 < attempts p)%Z ->
     (0 <= points p)%Z /\ PPA p = points_per_attempt (points p) (attempts p)) ->
  In (idx, o) out ->
  let active_grids := active_of (grid_data_of prepared_gdf basket_coords) in
  CellVar o = Some 0 /\ ShrinkWt o = Some 0 /\
  EB_PPA o = Some (if (attempts o >? 0)%Z
                   then gamma_of (get_neighborhood_params (row o) active_grids)
                   else 0).
Proof.
  intros Hok Hnd Hwp Hin active_grids.
  apply eb_analysis_Ok in Hok. subst out.
  destruct (Z.gtb_spec (attempts o) 0) as [Ha | Ha].
  - destruct (eb_output_of_active _ idx o Hnd Hin Ha) as [Hact Hcols].
    fold active_grids in Hact, Hcols.
    assert (Hne : get_neighborhood_params (row o) active_grids <> []).
    { intros E. pose proof (self_in_neighborhood (row o) _ idx Hact Ha) as Hself.
      rewrite E in Hself. destruct Hself. }
    rewrite (eb_params_regional _ _ Hne) in Hcols.
    + simpl in Hcols. inversion Hcols. now repeat split.
    + intros i n Hn. apply get_neighborhood_params_In in Hn as [Hn _].
      apply active_of_In in Hn as [Hn Hpos].
      unfold grid_data_of in Hn. apply in_map_iff in Hn as [[j p] [Hm Hj]].
      simpl in Hm. inversion Hm; subst i n. simpl in *.
      now apply (Hwp j).
  - apply eb_output_In in Hin as [r [_ ->]]. simpl in *.
    unfold where_attempts.
    replace (attempts r >? 0)%Z with false
      by (symmetry; rewrite Z.gtb_ltb; apply Z.ltb_ge; lia).
    repeat split.
Qed.

Example outA_In : In (0%nat, outA) (eb_output (grid_data_of preparedABCZ (0, 0))).
Proof. left. reflexivity. Qed.

Lemma eb_analysis_output_columns_witness :
  CellVar outA = Some 0 /\ ShrinkWt outA = Some 0 /\
  EB_PPA outA
  = Some (if (attempts outA >? 0)%Z
          then gamma_of (get_neighborhood_params (row outA)
                           (active_of (grid_data_of preparedABCZ (0, 0))))
          else 0).
Proof.
  apply (eb_analysis_output_columns preparedABCZ (0, 0)
           (eb_output (grid_data_of preparedABCZ (0, 0))) 0%nat outA).
  - reflexivity.
  - simpl. repeat constructor; simpl; intuition discriminate.
  - intros i p [H | [H | [H | [H | []]]]] Hp; inversion H; subst;
      unfold points_per_attempt; simpl in *; split; try lia; try lra.
  - exact outA_In.
Defined.

Lemma sumZ_col_le (f g : Row -> Z) (fr : frame Row) :
  (forall i n, In (i, n) fr -> (f n <= g n)%Z) -> (sumZ (col f fr) <= sumZ (col g fr))%Z.
Proof.
  intros H. unfold col. apply sumZ_map_le. intros [i n] Hin. now apply (H i).
Qed.

Lemma gamma_of_le_three (neighborhood : frame Row) :
  (forall i n, In (i, n) neighborhood -> (points n <= 3 * attempts n)%Z) ->
  gamma_of neighborhood <= 3.
Proof.
  intros Hb. unfold gamma_of.
  destruct (sumZ (col (fun g : Row => attempts g) neighborhood) >? 0)%Z eqn:E; [| lra].
  apply Z.gtb_lt in E.
  assert (Hs : (sumZ (col (fun g : Row => points g) neighborhood)
                <= 3 * sumZ (col (fun g : Row => attempts g) neighborhood))%Z).
  { unfold col at 2. rewrite <- sumZ_map_scale.
    change (sumZ (col (fun g : Row => points g) neighborhood)
            <= sumZ (col (fun g : Row => 3 * attempts g) neighborhood))%Z.
    now apply sumZ_col_le. }
  apply IZR_lt in E. apply IZR_le in Hs. rewrite mult_IZR in Hs.
  apply (Rmult_le_reg_r (IZR (sumZ (col (fun g : Row => attempts g) neighborhood))));
    [exact E |].
  unfold Rdiv. rewrite Rmult_assoc, Rinv_l by lra. lra.
Qed.

(** X10: when no shot is worth more than 3 points, every smoothed rate in the
    table [do_eb] returns is a number between 0 and 3, so the out-of-range
    note is never printed. *)
Theorem do_eb_smoothed_rate_in_range
    (swg : list (Shot * option nat)) (grid_gdf : list Grid)
    (basket_coords : R * R) (out : frame EBRow) (idx : nat) (o : EBRow) :
  do_eb swg grid_gdf basket_coords = Ok out ->
  (forall s l, In (s, l) swg -> (action s <= 3)%Z) ->
  In (idx, o) out ->
  exists theta_i,
    EB_PPA o = Some theta_i /\ 0 <= theta_i <= 3 /\ out_of_range theta_i = false.
Proof.
  intros Hok H3 Hin.
  assert (Hrange : forall t, 0 <= t <= 3 -> out_of_range t = false).
  { intros t Ht. unfold out_of_range, Rltb.
    destruct (Rlt_dec 3 t); [lra |]. destruct (Rlt_dec t 0); [lra | reflexivity]. }
  destruct (Z.gtb_spec (attempts o) 0) as [Ha | Ha].
  - destruct (do_eb_attempted_rows _ _ _ _ _ _ Hok Hin Ha) as [p [Hp [_ [_ Ht]]]].
    eexists. split; [exact Ht |].
    destruct (prepare_data_for_eb_valid _ _ _ Hp) as [Hv _].
    destruct (prepare_data_for_eb_Ok _ _ _ Hp) as [_ [_ Hwp]].
    pose proof (prepare_data_for_eb_rows _ _ _ Hp) as Hrows.
    assert (Hb : forall i n,
               In (i, n) (get_neighborhood_params (row o)
                            (active_of (grid_data_of p basket_coords))) ->
               (0 <= points n)%Z /\ (points n <= 3 * attempts n)%Z).
    { intros i n Hn. apply get_neighborhood_params_In in Hn as [Hn _].
      apply active_of_In in Hn as [Hn _].
      unfold grid_data_of in Hn. apply in_map_iff in Hn as [[j q] [Hm Hq]].
      simpl in Hm. inversion Hm; subst i n. simpl.
      split; [apply (Hwp _ _ Hq) |].
      rewrite Hrows in Hq. apply in_map_iff in Hq as [ig [Hig _]].
      replace q with (snd (grid_stats_row swg ig)) by now rewrite Hig.
      apply grid_stats_row_three. intros s l Hs.
      destruct (Hv _ _ Hs) as [Hm' Hact]. repeat split; try assumption.
      now apply (H3 s l). }
    assert (Hg : 0 <= gamma_of (get_neighborhood_params (row o)
                                  (active_of (grid_data_of p basket_coords))) <= 3).
    { split.
      - apply gamma_of_nonneg. intros i n Hn. now apply (Hb i).
      - apply gamma_of_le_three. intros i n Hn. now apply (Hb i). }
    split; [exact Hg | now apply Hrange].
  - destruct (do_eb_Ok _ _ _ _ Hok) as [p [_ [Hout _]]]. subst out.
    apply eb_output_In in Hin as [r [_ ->]]. simpl in *.
    exists 0. unfold where_attempts.
    replace (attempts r >? 0)%Z with false by (symmetry; rewrite Z.gtb_ltb; apply Z.ltb_ge; lia).
    split; [reflexivity | split; [lra | apply Hrange; lra]].
Qed.

Lemma do_eb_smoothed_rate_in_range_witness :
  exists theta_i,
    EB_PPA out3_row0 = Some theta_i /\ 0 <= theta_i <= 3 /\ out_of_range theta_i = false.
Proof.
  exact (do_eb_smoothed_rate_in_range shots3 grid2 (0, 0) out3 0%nat out3_row0
           do_eb_shots3 actions_shots3 out3_row0_In).
Defined.

(** ** Court coordinates *)

Lemma coords_near_half (x y : R) :
  50 <= x -> coords x y = (7.5 - 0.15 * y, 0.28 * x - 14).
Proof.
  intros H. unfold coords.
  destruct (Rlt_dec (-14.0 + (x / 100 - 0.5 + 0.5) * (14.0 - -14.0)) 0); [lra |].
  f_equal; lra.
Qed.

Lemma coords_far_half (x y : R) :
  x < 50 -> coords x y = (0.15 * y - 7.5, 14 - 0.28 * x).
Proof.
  intros H. unfold coords.
  destruct (Rlt_dec (-14.0 + (x / 100 - 0.5 + 0.5) * (14.0 - -14.0)) 0); [| lra].
  f_equal; lra.
Qed.

(** X12: [coords] always returns a position on the half court with a
    non-negative second coordinate, and for percentages between 0 and 100 the
    position lies on the court: first coordinate within 7.5 of the axis, second
    coordinate at most 14. *)
Theorem coords_on_half_court (x y : R) :
  0 <= snd (coords x y) /\
  (0 <= x <= 100 -> 0 <= y <= 100 ->
   -7.5 <= fst (coords x y) <= 7.5 /\ snd (coords x y) <= 14).
Proof.
  destruct (Rlt_dec x 50) as [H | H].
  - rewrite coords_far_half by assumption. simpl. split; [lra |]. intros Hx Hy. lra.
  - rewrite coords_near_half by lra. simpl. split; [lra |]. intros Hx Hy. lra.
Qed.

Lemma coords_on_half_court_witness :
  0 <= snd (coords 20 30) /\
  -7.5 <= fst (coords 20 30) <= 7.5 /\ snd (coords 20 30) <= 14.
Proof.
  destruct (coords_on_half_court 20 30) as [H0 H].
  split; [exact H0 | apply H; lra].
Defined.

(** X14: on the half-court line the flip is not applied, so there a shot and
    its mirror image get opposite first coordinates: [coords 50 y] and
    [coords 50 (100 - y)] are [(7.5 - 0.15 y, 0)] and [(0.15 y - 7.5, 0)]. *)
Theorem coords_half_court_line (y : R) :
  coords 50 y = (7.5 - 0.15 * y, 0) /\
  coords (100 - 50) (100 - y) = (0.15 * y - 7.5, 0) /\
  (y <> 50 -> coords (100 - 50) (100 - y) <> coords 50 y).
Proof.
  assert (H1 : coords 50 y = (7.5 - 0.15 * y, 0)).
  { rewrite coords_near_half by lra. f_equal; lra. }
  assert (H2 : coords (100 - 50) (100 - y) = (0.15 * y - 7.5, 0)).
  { rewrite coords_near_half by lra. f_equal; lra. }
  split; [exact H1 | split; [exact H2 |]].
  intros Hy E. rewrite H1, H2 in E. inversion E. lra.
Qed.

Lemma coords_half_court_line_witness :
  coords (100 - 50) (100 - 30) <> coords 50 30.
Proof.
  destruct (coords_half_court_line 30) as [_ [_ H]]. apply H. lra.
Defined.

(** ** Local metrics of a player *)

Lemma local_metrics_In (points_gdf : list (Shot * option nat))
    (grid_gdf : list LocalMetrics.Layer) (i : nat) (r : LocalMetrics.Local) :
  In (i, r) (LocalMetrics.local_metrics points_gdf grid_gdf) ->
  exists c, In (i, r) (LocalMetrics.local_row points_gdf (i, c)).
Proof.
  unfold LocalMetrics.local_metrics. rewrite in_flat_map.
  intros [[j c] [_ Hin]]. exists c.
  assert (j = i).
  { unfold LocalMetrics.local_row in Hin.
    destruct (shots_of j points_gdf); [destruct Hin |].
    destruct Hin as [Hin | []]. now inversion Hin. }
  now subst j.
Qed.

(** X15: local_metrics.py keeps a row only for a cell that contains a shot of
    the player. In every row [FGA] is the number of those shots, at least 1;
    [PPB] is 2 or 3; [PTS] is the sum of the points of those shots; [LPRLA] is
    [PTS] minus [ELPTS]; and the local rate [LPPA = PTS / FGA] and the
    efficiency [LSScE = LPPA - EB_PPA] are numbers, never missing. *)
Theorem local_metrics_rows (points_gdf : list (Shot * option nat))
    (grid_gdf : list LocalMetrics.Layer) (i : nat) (r : LocalMetrics.Local) :
  In (i, r) (LocalMetrics.local_metrics points_gdf grid_gdf) ->
  LocalMetrics.FGA r = Z.of_nat (List.length (shots_of i points_gdf)) /\
  (1 <= LocalMetrics.FGA r)%Z /\
  (LocalMetrics.PPB r = 2 \/ LocalMetrics.PPB r = 3)%Z /\
  LocalMetrics.PTS r = sumZ (map (fun s => action s * made s)%Z (shots_of i points_gdf)) /\
  LocalMetrics.LPRLA r = IZR (LocalMetrics.PTS r) - LocalMetrics.ELPTS r /\
  exists lppa lssce,
    LocalMetrics.LPPA r = Some lppa /\ LocalMetrics.LSScE r = Some lssce /\
    lppa = IZR (LocalMetrics.PTS r) / IZR (LocalMetrics.FGA r) /\
    lssce = lppa - LocalMetrics.EB_PPA (LocalMetrics.layer r).
Proof.
  intros Hin. apply local_metrics_In in Hin as [c Hin].
  unfold LocalMetrics.local_row in Hin.
  destruct (shots_of i points_gdf) as [| s ss] eqn:E; [destruct Hin |].
  destruct Hin as [Hin | []]. inversion Hin; subst r; clear Hin.
  set (fga := Z.of_nat (List.length (s :: ss))).
  assert (Hf : (1 <= fga)%Z) by (subst fga; simpl; lia).
  cbn [LocalMetrics.FGA LocalMetrics.PPB LocalMetrics.PTS LocalMetrics.LPRLA
       LocalMetrics.ELPTS LocalMetrics.LPPA LocalMetrics.LSScE LocalMetrics.EB_PPA
       LocalMetrics.layer].
  fold fga.
  split; [reflexivity | split; [exact Hf | split]].
  - destruct (Rlt_dec 6.62 (LocalMetrics.distance c)); [now right | now left].
  - split; [reflexivity | split; [reflexivity |]].
    replace (fga =? 0)%Z with false by (symmetry; apply Z.eqb_neq; lia).
    eexists. eexists. split; [reflexivity | split; [reflexivity |]].
    split; reflexivity.
Qed.

Example local_metrics_shots4 :
  In (1%nat, local4_row1) (LocalMetrics.local_metrics shots4 layer2).
Proof.
  unfold LocalMetrics.local_metrics, layer2, shots4, local4_row1. simpl.
  right. left. f_equal.
  destruct (Rlt_dec 6.62 7); [reflexivity | lra].
Qed.

Lemma local_metrics_rows_witness :
  In (1%nat, local4_row1) (LocalMetrics.local_metrics shots4 layer2) /\
  (1 <= LocalMetrics.FGA local4_row1)%Z /\
  exists lssce,
    LocalMetrics.LSScE local4_row1 = Some lssce /\
    lssce = IZR (LocalMetrics.PTS local4_row1) / IZR (LocalMetrics.FGA local4_row1)
            - LocalMetrics.EB_PPA (LocalMetrics.layer local4_row1).
Proof.
  split; [exact local_metrics_shots4 |].
  destruct (local_metrics_rows shots4 layer2 _ _ local_metrics_shots4)
    as [_ [H1 [_ [_ [_ [lppa [lssce [_ [H2 [H3 H4]]]]]]]]]].
  split; [exact H1 |]. exists lssce. split; [exact H2 |]. now rewrite <- H3.
Defined.

Lemma sumZ_flat_map {A B : Type} (f : A -> list B) (g : B -> Z) (l : list A) :
  sumZ (map g (flat_map f l)) = sumZ (map (fun a => sumZ (map g (f a))) l).
Proof.
  induction l as [| a l IH]; simpl; [reflexivity |].
  now rewrite map_app, sumZ_app, IH.
Qed.

Lemma local_row_counts (points_gdf : list (Shot * option nat)) (i : nat)
    (c : LocalMetrics.Layer) :
  sumZ (map (fun ir => LocalMetrics.FGA (snd ir)) (LocalMetrics.local_row points_gdf (i, c)))
  = sumZ (map (fun _ => 1%Z) (shots_of i points_gdf)) /\
  sumZ (map (fun ir => LocalMetrics.PTS (snd ir)) (LocalMetrics.local_row points_gdf (i, c)))
  = sumZ (map (fun s => action s * made s)%Z (shots_of i points_gdf)).
Proof.
  unfold LocalMetrics.local_row.
  destruct (shots_of i points_gdf) as [| s ss]; [split; reflexivity |].
  remember (s :: ss) as l eqn:El.
  cbn [map snd LocalMetrics.FGA LocalMetrics.PTS].
  unfold sumZ at 1 3. cbn [fold_right]. rewrite !Z.add_0_r.
  split; [apply length_sumZ | reflexivity].
Qed.

(** X16: when every label of the join is a label of the layer, the rows of
    local_metrics.py account for each assigned shot of the player exactly
    once, although cells without shots are dropped: the [FGA] add up to the
    number of assigned shots and the [PTS] to the points they scored. *)
Theorem local_metrics_conserves_shots (points_gdf : list (Shot * option nat))
    (grid_gdf : list LocalMetrics.Layer) :
  (forall s j, In (s, Some j) points_gdf -> (j < List.length grid_gdf)%nat) ->
  sumZ (map (fun ir => LocalMetrics.FGA (snd ir))
            (LocalMetrics.local_metrics points_gdf grid_gdf))
  = Z.of_nat (List.length (filter is_assigned points_gdf)) /\
  sumZ (map (fun ir => LocalMetrics.PTS (snd ir))
            (LocalMetrics.local_metrics points_gdf grid_gdf))
  = sumZ (map (fun s => action (fst s) * made (fst s))%Z (filter is_assigned points_gdf)).
Proof.
  intros Hlab. unfold LocalMetrics.local_metrics, enumerate.
  rewrite !sumZ_flat_map. split.
  - rewrite (sum_over_enumerate _
               (fun i => sumZ (map (fun _ => 1%Z) (shots_of i points_gdf))))
      by (intros i g; apply local_row_counts).
    rewrite (sum_over_groups (fun _ => 1%Z)), (filter_in_range _ _ Hlab).
    symmetry. apply length_sumZ.
  - rewrite (sum_over_enumerate _
               (fun i => sumZ (map (fun s => action s * made s)%Z (shots_of i points_gdf))))
      by (intros i g; apply local_row_counts).
    now rewrite (sum_over_groups (fun s => action s * made s)%Z), (filter_in_range _ _ Hlab).
Qed.

Lemma labels_shots4 (s : Shot) (j : nat) :
  In (s, Some j) shots4 -> (j < List.length layer2)%nat.
Proof.
  intros [H | [H | [H | [H | []]]]]; inversion H; subst; simpl; lia.
Qed.

Lemma local_metrics_conserves_shots_witness :
  sumZ (map (fun ir => LocalMetrics.FGA (snd ir))
            (LocalMetrics.local_metrics shots4 layer2)) = 3%Z /\
  sumZ (map (fun ir => LocalMetrics.PTS (snd ir))
            (LocalMetrics.local_metrics shots4 layer2)) = 5%Z.
Proof.
  exact (local_metrics_conserves_shots shots4 layer2 labels_shots4).
Defined.

(** ** Global metrics of a player *)

Lemma sumR_nonneg (l : list R) : (forall v, In v l -> 0 <= v) -> 0 <= sumR l.
Proof.
  induction l as [| a l IH]; intros H; simpl; [lra |].
  assert (0 <= a) by (apply H; now left).
  assert (0 <= sumR l) by (apply IH; intros v Hv; apply H; now right).
  lra.
Qed.

Lemma efg_loop_sums (df : list LocalMetrics.Local) (temp_calc ppb_3_sum : R) :
  GlobalMetrics.efg_loop df temp_calc ppb_3_sum
  = (temp_calc
     + sumR (map (fun row => if (LocalMetrics.PPB row =? 3)%Z
                             then IZR (LocalMetrics.PTS row) / 3
                             else if (LocalMetrics.PPB row =? 2)%Z
                                  then IZR (LocalMetrics.PTS row) / 2 else 0) df),
     ppb_3_sum
     + sumR (map (fun row => if (LocalMetrics.PPB row =? 3)%Z
                             then IZR (LocalMetrics.PTS row) / 3 else 0) df)).
Proof.
  revert temp_calc ppb_3_sum.
  induction df as [| row df IH]; intros t p; simpl.
  - f_equal; lra.
  - destruct (LocalMetrics.PPB row =? 3)%Z; [| destruct (LocalMetrics.PPB row =? 2)%Z];
      rewrite IH; f_equal; lra.
Qed.

Lemma made_shots_is_temp_calc (df : list LocalMetrics.Local) :
  (forall r, In r df -> (LocalMetrics.PPB r = 2 \/ LocalMetrics.PPB r = 3)%Z) ->
  sumR (map (fun row => IZR (LocalMetrics.PTS row) / IZR (LocalMetrics.PPB row)) df)
  = fst (GlobalMetrics.efg_loop df 0.0 0.0).
Proof.
  intros H. rewrite efg_loop_sums. cbn [fst].
  induction df as [| row df IH]; simpl; [lra |].
  assert (Hrow : (LocalMetrics.PPB row = 2 \/ LocalMetrics.PPB row = 3)%Z)
    by (apply H; now left).
  assert (IH' := IH (fun r Hr => H r (or_intror Hr))). clear IH.
  destruct Hrow as [E | E]; rewrite E; simpl; lra.
Qed.

Lemma ppb_3_sum_nonneg (df : list LocalMetrics.Local) :
  (forall r, In r df -> (0 <= LocalMetrics.PTS r)%Z) ->
  0 <= snd (GlobalMetrics.efg_loop df 0.0 0.0).
Proof.
  intros H. rewrite efg_loop_sums. cbn [snd].
  assert (0 <= sumR (map (fun row => if (LocalMetrics.PPB row =? 3)%Z
                                     then IZR (LocalMetrics.PTS row) / 3 else 0) df)).
  { apply sumR_nonneg. intros v Hv. apply in_map_iff in Hv as [r [<- Hr]].
    destruct (LocalMetrics.PPB r =? 3)%Z; [| lra].
    specialize (H r Hr). apply IZR_le in H. lra. }
  lra.
Qed.

(** X19: on a frame whose [PPB] are all 2 or 3 and whose points and attempts
    are not negative, the effective field-goal percentage is never below the
    field-goal percentage. *)
Theorem efg_pct_at_least_FG_pct (df : list LocalMetrics.Local) :
  (forall r, In r df ->
     (LocalMetrics.PPB r = 2 \/ LocalMetrics.PPB r = 3)%Z /\
     (0 <= LocalMetrics.PTS r)%Z /\ (0 <= LocalMetrics.FGA r)%Z) ->
  GlobalMetrics.FG_pct (GlobalMetrics.global_metrics df)
  <= GlobalMetrics.efg_pct (GlobalMetrics.global_metrics df).
Proof.
  intros H.
  pose proof (made_shots_is_temp_calc df (fun r Hr => proj1 (H r Hr))) as Hm.
  pose proof (ppb_3_sum_nonneg df (fun r Hr => proj1 (proj2 (H r Hr)))) as Hp.
  assert (HF : (0 <= sumZ (map LocalMetrics.FGA df))%Z).
  { apply sumZ_nonneg. intros v Hv. apply in_map_iff in Hv as [r [<- Hr]].
    apply (H r Hr). }
  unfold GlobalMetrics.global_metrics.
  cbn [GlobalMetrics.efg_pct GlobalMetrics.FG_pct].
  unfold GlobalMetrics.calculate_efg_pct. rewrite Hm.
  destruct (GlobalMetrics.efg_loop df 0.0 0.0) as [t p]. cbn [fst snd] in *.
  destruct (Z.eqb_spec (sumZ (map LocalMetrics.FGA df)) 0) as [E | E].
  - rewrite E. simpl. lra.
  - replace (sumZ (map LocalMetrics.FGA df) >? 0)%Z with true
      by (symmetry; apply Z.gtb_lt; lia).
    assert (HFR : 0 < IZR (sumZ (map LocalMetrics.FGA df))) by (apply IZR_lt; lia).
    assert (Hi : 0 < / IZR (sumZ (map LocalMetrics.FGA df)))
      by now apply Rinv_0_lt_compat.
    unfold Rdiv. nra.
Qed.

Lemma df4_rows (r : LocalMetrics.Local) :
  In r df4 ->
  (LocalMetrics.PPB r = 2 \/ LocalMetrics.PPB r = 3)%Z /\
  (0 <= LocalMetrics.PTS r)%Z /\ (0 <= LocalMetrics.FGA r)%Z.
Proof.
  intros [H | [H | []]]; subst r; simpl; (split; [| split; lia]); [now left | now right].
Qed.

Lemma efg_pct_at_least_FG_pct_witness :
  GlobalMetrics.FG_pct (GlobalMetrics.global_metrics df4)
  <= GlobalMetrics.efg_pct (GlobalMetrics.global_metrics df4).
Proof. exact (efg_pct_at_least_FG_pct df4 df4_rows). Defined.

Lemma length_filter_le {A : Type} (f g : A -> bool) (l : list A) :
  (forall a, f a = true -> g a = true) ->
  (List.length (filter f l) <= List.length (filter g l))%nat.
Proof.
  intros H. induction l as [| a l IH]; simpl; [lia |].
  destruct (f a) eqn:E.
  - rewrite (H a E). simpl. lia.
  - destruct (g a); simpl; lia.
Qed.

Lemma length_le_sum_fga (l : list LocalMetrics.Local) :
  (forall r, In r l -> (1 <= LocalMetrics.FGA r)%Z) ->
  (Z.of_nat (List.length l) <= sumZ (map LocalMetrics.FGA l))%Z.
Proof.
  intros H. rewrite length_sumZ. apply sumZ_map_le. exact H.
Qed.

(** X20: the three-point percentage of global_metrics.py counts the cells
    beyond the line in which the player scored, not the shots made; when every
    row has at least one attempt, as local_metrics.py guarantees, it lies
    between 0 and 100, and the two-point percentage is not negative. *)
Theorem shot_percentages_bounds (df : list LocalMetrics.Local) :
  (forall r, In r df -> (1 <= LocalMetrics.FGA r)%Z) ->
  0 <= GlobalMetrics.three_pt_pct (GlobalMetrics.global_metrics df) <= 100 /\
  0 <= GlobalMetrics.two_pt_pct (GlobalMetrics.global_metrics df).
Proof.
  intros H. unfold GlobalMetrics.global_metrics.
  cbn [GlobalMetrics.three_pt_pct GlobalMetrics.two_pt_pct]. split.
  - destruct (sumZ (map LocalMetrics.FGA (filter GlobalMetrics.is_three df)) >? 0)%Z eqn:E;
      [| lra].
    apply Z.gtb_lt in E.
    set (made3 := List.length
           (filter (fun row => GlobalMetrics.is_three row && GlobalMetrics.scored row) df)).
    set (fga3 := sumZ (map LocalMetrics.FGA (filter GlobalMetrics.is_three df))) in *.
    assert (Hle : (Z.of_nat made3 <= fga3)%Z).
    { apply Z.le_trans
        with (Z.of_nat (List.length (filter GlobalMetrics.is_three df))).
      - apply Nat2Z.inj_le. apply length_filter_le.
        intros a Ha. now apply andb_true_iff in Ha.
      - apply length_le_sum_fga. intros r Hr. apply filter_In in Hr. now apply H. }
    assert (H0 : 0 <= IZR (Z.of_nat made3)) by (apply IZR_le; lia).
    apply IZR_le in Hle. apply IZR_lt in E.
    assert (Hi : 0 < / IZR fga3) by now apply Rinv_0_lt_compat.
    assert (Hq : IZR (Z.of_nat made3) / IZR fga3 <= 1).
    { apply (Rmult_le_reg_r (IZR fga3)); [exact E |].
      unfold Rdiv. rewrite Rmult_assoc, Rinv_l by lra. lra. }
    assert (Hq0 : 0 <= IZR (Z.of_nat made3) / IZR fga3).
    { unfold Rdiv. apply Rmult_le_pos; lra. }
    lra.
  - destruct (sumZ (map LocalMetrics.FGA (filter GlobalMetrics.is_two df)) >? 0)%Z eqn:E;
      [| lra].
    apply Z.gtb_lt in E. apply IZR_lt in E.
    assert (Hs : (0 <= sumZ (map LocalMetrics.PTS
                    (filter (fun row => GlobalMetrics.is_two row && GlobalMetrics.scored row)
                            df)))%Z).
    { apply sumZ_nonneg. intros v Hv. apply in_map_iff in Hv as [r [<- Hr]].
      apply filter_In in Hr as [_ Hr]. apply andb_true_iff in Hr as [_ Hr].
      unfold GlobalMetrics.scored in Hr. apply Z.gtb_lt in Hr. lia. }
    apply IZR_le in Hs.
    assert (Hi : 0 < / IZR (sumZ (map LocalMetrics.FGA (filter GlobalMetrics.is_two df))))
      by now apply Rinv_0_lt_compat.
    unfold Rdiv. apply Rmult_le_pos; [| lra].
    apply Rmult_le_pos; [| lra]. apply Rmult_le_pos; lra.
Qed.

Lemma df4_FGA (r : LocalMetrics.Local) : In r df4 -> (1 <= LocalMetrics.FGA r)%Z.
Proof. intros [H | [H | []]]; subst r; simpl; lia. Qed.

Lemma shot_percentages_bounds_witness :
  0 <= GlobalMetrics.three_pt_pct (GlobalMetrics.global_metrics df4) <= 100 /\
  0 <= GlobalMetrics.two_pt_pct (GlobalMetrics.global_metrics df4).
Proof. exact (shot_percentages_bounds df4 df4_FGA). Defined.
